(** * The query API of the data pipeline (src/api.py)

    A shallow embedding of the two endpoints of [src/api.py]:

    - [POST /get_data]: basic-auth dependency, request-body validation
      ([RequestParams]), the two rate-limit decorators, and the handler
      [get_data], which sends one [SELECT] to the store and wraps the rows
      in a response envelope;
    - [GET /users/me]: basic-auth dependency, returns the username.

    Handlers are written in a small state-and-exception monad: the state
    ([world]) holds what the module touches besides its arguments, namely the log
    records written through [logger], the statements sent to the store, and
    the in-memory storage of the rate limiter.  A raised Python exception is
    the [Raise] outcome; [try_except] is Python's [try: ... except C: ...].
    Building a [JSONResponse] renders its payload, so it is modelled as a
    step that raises when the payload holds a value JSON cannot carry. *)

From Stdlib Require Import ZArith Lia Ascii String.
From stdpp Require Import base option list sorting gmap strings pretty.

Set Warnings "-register-all".

Local Open Scope string_scope.
Local Open Scope list_scope.
Local Open Scope Z_scope.

(** ** Python values *)

(** The values that travel through the handlers: what the SQLite driver
    returns for a cell ([None], [int], [float], [str], [bytes]) and what JSON
    payloads are built from.  A [float] is never inspected by the code, so it
    is carried as its 64-bit pattern. *)
Inductive pyval :=
  | PyNone
  | PyBool (b : bool)
  | PyInt (n : Z)
  | PyFloat (bits : Z)
  | PyStr (s : string)
  | PyBytes (bs : list Byte.byte)
  | PyList (xs : list pyval)
  | PyDict (items : list (string * pyval)).

(** A Python [dict] with string keys: insertion-ordered, one value per key. *)
Abbreviation pydict := (list (string * pyval)).

(** [d[k] = v]: an existing key keeps its position and gets the new value, a
    new key goes to the end. *)
Fixpoint dict_set (k : string) (v : pyval) (d : pydict) : pydict :=
  match d with
  | [] => [(k, v)]
  | (k', v') :: d' =>
      if String.eqb k k' then (k', v) :: d' else (k', v') :: dict_set k v d'
  end.

(** [d.get(k)] *)
Fixpoint dict_get (k : string) (d : pydict) : option pyval :=
  match d with
  | [] => None
  | (k', v') :: d' => if String.eqb k k' then Some v' else dict_get k d'
  end.

(** [d.update(items)], which is also what [dict(items)] and [{..., **items}]
    do: the items are stored left to right. *)
Definition dict_update (d : pydict) (items : list (string * pyval)) : pydict :=
  fold_left (fun acc kv => dict_set kv.1 kv.2 acc) items d.

(** [dict(items)] *)
Definition py_dict (items : list (string * pyval)) : pydict :=
  dict_update [] items.

(** [str(n)] for an [int]. *)
Definition str_int (n : Z) : string := pretty n.

(** [f"{x}"] for an [Optional[int]]: [None] prints as [None]. *)
Definition format_optional_int (x : option Z) : string :=
  match x with
  | Some n => str_int n
  | None => "None"
  end.

(** ** Exceptions, outcomes and the handler monad *)

(** An error raised by the store layer (SQLAlchemy and the SQLite driver
    below it): its class name and message.  None of these classes derives
    from the web framework's [HTTPException]. *)
Record store_error := StoreError { err_class : string; err_msg : string }.

(** Why the validation of one field of a request body failed. *)
Inductive error_kind :=
  | missing                 (* required field absent *)
  | int_type                (* not readable as an integer *)
  | string_type             (* not readable as a string *)
  | greater_than_equal      (* below the field's [ge] bound *)
  | less_than_equal.        (* above the field's [le] bound *)

(** The exceptions that can leave a handler.  [HTTPException] is the class
    the module imports from the web framework.  [RateLimitExceeded] is the
    limiter's rejection; it derives from the exception class of the toolkit
    underneath the framework, not from the imported [HTTPException]. *)
Inductive exn :=
  | HTTPException (status_code : Z) (detail : string)
                  (headers : list (string * string))
  | RateLimitExceeded
  | RequestValidationError (errors : list (string * error_kind))
  | SQLAlchemyError (e : store_error)
  | TypeError (msg : string)
  | ValueError (msg : string).

(** [isinstance(e, HTTPException)] *)
Definition is_HTTPException (e : exn) : bool :=
  match e with
  | HTTPException _ _ _ => true
  | _ => false
  end.

Inductive outcome (A : Type) :=
  | Return (a : A)
  | Raise (e : exn).
Arguments Return {A} a.
Arguments Raise {A} e.

Inductive log_level := INFO | WARNING | ERROR.

Record log_record := LogRecord { levelname : log_level; msg : string }.

(** One fixed window of the rate limiter: which window it is and how many
    requests were counted in it. *)
Record window := Window { win_index : Z; win_count : Z }.

(** What the module reads and writes besides its arguments. *)
Record world := World {
  log : list log_record;                   (* records written via [logger] *)
  executed : list string;                  (* statements sent to the store *)
  storage : gmap (string * Z) window       (* the limiter's memory storage *)
}.

Definition M (A : Type) : Type := world -> outcome A * world.

Definition ret {A} (a : A) : M A := fun w => (Return a, w).

Definition raise {A} (e : exn) : M A := fun w => (Raise e, w).

Definition bind {A B} (m : M A) (k : A -> M B) : M B :=
  fun w =>
    match m w with
    | (Return a, w') => k a w'
    | (Raise e, w') => (Raise e, w')
    end.

Notation "'let*' x := m 'in' k" := (bind m (fun x => k))
  (at level 10, x name, m at level 100, k at level 200).

(** [try: body  except C as e: handler(e)] where [catches] is
    [isinstance(_, C)]. *)
Definition try_except {A} (body : M A) (catches : exn -> bool)
    (handler : exn -> M A) : M A :=
  fun w =>
    match body w with
    | (Return a, w') => (Return a, w')
    | (Raise e, w') => if catches e then handler e w' else (Raise e, w')
    end.

Definition logger_emit (lvl : log_level) (m : string) : M unit :=
  fun w => (Return tt,
            {| log := log w ++ [LogRecord lvl m];
               executed := executed w; storage := storage w |}).

Definition logger_info := logger_emit INFO.
Definition logger_warning := logger_emit WARNING.

(** [str(e)] as far as the log needs it. *)
Definition exn_text (e : exn) : string :=
  match e with
  | HTTPException _ d _ => d
  | RateLimitExceeded => "rate limit exceeded"
  | RequestValidationError _ => "validation error"
  | SQLAlchemyError s => err_msg s
  | TypeError m => m
  | ValueError m => m
  end.

(** [logger.exception(e)] logs at level ERROR. *)
Definition logger_exception (e : exn) : M unit := logger_emit ERROR (exn_text e).

(** ** Rendering a response *)

(** Whether the 64-bit pattern of a [float] is a finite number: the eleven
    exponent bits are not all ones. *)
Definition float_is_finite (bits : Z) : bool :=
  negb (Z.land (Z.shiftr bits 52) 2047 =? 2047).
Arguments float_is_finite : simpl never.

(** What stops [json.dumps(v, allow_nan=False)], if anything: the first
    value, in the order the encoder walks [v], that JSON cannot carry.
    [bytes] has no JSON form ([TypeError]); an infinite or not-a-number
    [float] is out of range ([ValueError]). *)
Fixpoint json_dumps_error (v : pyval) : option exn :=
  match v with
  | PyNone | PyBool _ | PyInt _ | PyStr _ => None
  | PyFloat bits =>
      if float_is_finite bits then None
      else Some (ValueError "Out of range float values are not JSON compliant")
  | PyBytes _ =>
      Some (TypeError "Object of type bytes is not JSON serializable")
  | PyList xs =>
      (fix first_error (xs : list pyval) : option exn :=
         match xs with
         | [] => None
         | x :: xs' =>
             match json_dumps_error x with
             | Some e => Some e
             | None => first_error xs'
             end
         end) xs
  | PyDict items =>
      (fix first_error (items : list (string * pyval)) : option exn :=
         match items with
         | [] => None
         | (_, x) :: items' =>
             match json_dumps_error x with
             | Some e => Some e
             | None => first_error items'
             end
         end) items
  end.

(** ** Credential checker *)

(** [s.encode("utf8")].  A Python [str] is represented by the string of its
    UTF-8 code units, so encoding lists those bytes. *)
Definition encode_utf8 (s : string) : list Z :=
  (fun b => Z.of_N (Byte.to_N b)) <$> String.list_byte_of_string s.

(** The loop of CPython's [_tscmp], behind [secrets.compare_digest]:
    [result |= *left++ ^ *right++] for each byte of [right]. *)
Fixpoint tscmp_loop (lhs rhs : list Z) (result : Z) {struct rhs} : Z :=
  match rhs with
  | [] => result
  | r :: rhs' =>
      match lhs with
      | l :: lhs' => tscmp_loop lhs' rhs' (Z.lor result (Z.lxor l r))
      | [] => result
      end
  end.

(** [secrets.compare_digest(a, b)] on bytes: when the lengths differ, [b] is
    compared with itself and the result starts at 1. *)
Definition compare_digest (a b : list Z) : bool :=
  let len_b := length b in
  let start :=
    if Nat.eqb (length a) len_b then (a, 0) else (b, 1) in
  Z.eqb (tscmp_loop start.1 b start.2) 0.

(** [HTTPBasicCredentials] *)
Record HTTPBasicCredentials := Credentials { username : string; password : string }.

(** The part of [config.yaml] the module reads at import time. *)
Record Config := {
  table_name : string;          (* pipeline.destination_table *)
  users_username : string;      (* api.admin.username *)
  users_password : string;      (* api.admin.password *)
  rate_per_minute : Z;          (* api.rate_limits.per_minute *)
  rate_per_second : Z           (* api.rate_limits.per_second *)
}.

Definition HTTP_200_OK : Z := 200.
Definition HTTP_400_BAD_REQUEST : Z := 400.
Definition HTTP_401_UNAUTHORIZED : Z := 401.
Definition HTTP_422_UNPROCESSABLE : Z := 422.
Definition HTTP_429_TOO_MANY_REQUESTS : Z := 429.

Definition get_current_username (config : Config)
    (credentials : HTTPBasicCredentials) : M string :=
  let current_username_bytes := encode_utf8 (username credentials) in
  let correct_username_bytes := encode_utf8 (users_username config) in
  let is_correct_username :=
    compare_digest current_username_bytes correct_username_bytes in
  let current_password_bytes := encode_utf8 (password credentials) in
  let correct_password_bytes := encode_utf8 (users_password config) in
  let is_correct_password :=
    compare_digest current_password_bytes correct_password_bytes in
  if negb (is_correct_username && is_correct_password) then
    raise (HTTPException HTTP_401_UNAUTHORIZED "Incorrect username or password"
             [("WWW-Authenticate", "Basic")])
  else ret (username credentials).

(** [GET /users/me]: the dependency runs first, its result is the argument. *)
Definition read_current_user (username : string) : M pydict :=
  ret [("username", PyStr username)].

Definition get_users_me (config : Config) (credentials : HTTPBasicCredentials)
    : M pydict :=
  let* username := get_current_username config credentials in
  read_current_user username.

(** ** Request bodies and [RequestParams] *)

(** A parsed JSON value of a request body. *)
Inductive json :=
  | JNull
  | JBool (b : bool)
  | JInt (n : Z)
  | JFloat (bits : Z)
  | JStr (s : string)
  | JArr (xs : list json)
  | JObj (items : list (string * json)).

(** How the validation library reads a non-null JSON value as an [int] or as
    a [str], and whether a field declared [str] with [default=None] takes
    [null].  The library is not part of the module; the handlers are
    modelled for every such reading. *)
Record Pydantic := {
  parse_int : json -> option Z;
  parse_str : json -> option string;
  none_default_takes_null : bool
}.

Record RequestParams := {
  source_table : string;
  start_index : Z;
  end_index : Z;
  limit : option Z;
  start_date : option string;
  end_date : option string
}.

Section Validation.
Variable pyd : Pydantic.
Variable config : Config.

(** An [int] field with optional [ge] and [le] bounds. *)
Definition int_field (ge le : option Z) (v : json) : error_kind + Z :=
  match v with
  | JNull => inl int_type
  | _ =>
      match parse_int pyd v with
      | None => inl int_type
      | Some n =>
          if match ge with Some lo => n <? lo | None => false end
          then inl greater_than_equal
          else if match le with Some hi => hi <? n | None => false end
          then inl less_than_equal
          else inr n
      end
  end.

Definition str_field (v : json) : error_kind + string :=
  match v with
  | JNull => inl string_type
  | _ =>
      match parse_str pyd v with
      | None => inl string_type
      | Some s => inr s
      end
  end.

(** [source_table: str = Field(default=table_name)] *)
Definition validate_source_table (body : gmap string json) : error_kind + string :=
  match body !! "source_table" with
  | None => inr (table_name config)
  | Some v => str_field v
  end.

(** [start_index: int = Field(ge=0)], [end_index: int = Field(ge=0)]:
    no default, so the field is required. *)
Definition validate_index (name : string) (body : gmap string json) : error_kind + Z :=
  match body !! name with
  | None => inl missing
  | Some v => int_field (Some 0) None v
  end.

(** [limit: Optional[int] = Field(default=5, le=1000)] *)
Definition validate_limit (body : gmap string json) : error_kind + option Z :=
  match body !! "limit" with
  | None => inr (Some 5)
  | Some JNull => inr None
  | Some v =>
      match int_field None (Some 1000) v with
      | inl e => inl e
      | inr n => inr (Some n)
      end
  end.

(** [start_date: str = Field(default=None)], [end_date] likewise. *)
Definition validate_date (name : string) (body : gmap string json)
    : error_kind + option string :=
  match body !! name with
  | None => inr None
  | Some JNull =>
      if none_default_takes_null pyd then inr None else inl string_type
  | Some v =>
      match str_field v with
      | inl e => inl e
      | inr s => inr (Some s)
      end
  end.

Definition field_errors {A} (name : string) (r : error_kind + A)
    : list (string * error_kind) :=
  match r with
  | inl e => [(name, e)]
  | inr _ => []
  end.

(** Building a [RequestParams] from a body: every field is validated and
    the errors are collected in field order. *)
Definition RequestParams_validate (body : gmap string json)
    : list (string * error_kind) + RequestParams :=
  let r1 := validate_source_table body in
  let r2 := validate_index "start_index" body in
  let r3 := validate_index "end_index" body in
  let r4 := validate_limit body in
  let r5 := validate_date "start_date" body in
  let r6 := validate_date "end_date" body in
  match r1, r2, r3, r4, r5, r6 with
  | inr a, inr b, inr c, inr d, inr e, inr f =>
      inr {| source_table := a; start_index := b; end_index := c;
             limit := d; start_date := e; end_date := f |}
  | _, _, _, _, _, _ =>
      inl (field_errors "source_table" r1 ++ field_errors "start_index" r2
           ++ field_errors "end_index" r3 ++ field_errors "limit" r4
           ++ field_errors "start_date" r5 ++ field_errors "end_date" r6)
  end.

(** The framework turns a failed body into a validation error before the
    endpoint function is called. *)
Definition validate_body (body : gmap string json) : M RequestParams :=
  match RequestParams_validate body with
  | inl errors => raise (RequestValidationError errors)
  | inr params => ret params
  end.

(** All field errors of a body, in field order. *)
Definition all_errors (body : gmap string json) : list (string * error_kind) :=
  field_errors "source_table" (validate_source_table body)
  ++ field_errors "start_index" (validate_index "start_index" body)
  ++ field_errors "end_index" (validate_index "end_index" body)
  ++ field_errors "limit" (validate_limit body)
  ++ field_errors "start_date" (validate_date "start_date" body)
  ++ field_errors "end_date" (validate_date "end_date" body).
End Validation.

(** ** The store *)

(** A fetched row, as the items of [row._mapping]: column name and value, in
    column order. *)
Abbreviation Row := (list (string * pyval)).

(** SQLite's [LIMIT n] on a result, for a limit it accepts (a 64-bit
    integer, see [sqlite_limit]): at most [n] rows, and no upper bound when
    [n] is negative. *)
Definition sql_limit {A} (n : Z) (rows : list A) : list A :=
  if n <? 0 then rows else take (Z.to_nat n) rows.

(** [LIMIT n] for any integer literal: a literal outside the 64-bit range
    is not an integer to SQLite and the statement fails with a datatype
    mismatch. *)
Definition sqlite_limit {A} (n : Z) (rows : list A) : store_error + list A :=
  if (n <? - 2 ^ 63) || (2 ^ 63 - 1 <? n)
  then inl (StoreError "IntegrityError" "datatype mismatch")
  else inr (sql_limit n rows).

Definition digit_of (c : ascii) : option Z :=
  let n := Z.of_N (Ascii.N_of_ascii c) in
  if (48 <=? n) && (n <=? 57) then Some (n - 48) else None.

Fixpoint parse_digits (s : string) (acc : Z) : option Z :=
  match s with
  | EmptyString => Some acc
  | String c s' =>
      match digit_of c with
      | Some d => parse_digits s' (10 * acc + d)
      | None => None
      end
  end.

(** A decimal integer literal with an optional minus sign. *)
Definition parse_int_literal (s : string) : option Z :=
  match s with
  | EmptyString => None
  | String c s' =>
      if Ascii.eqb c "-"%char
      then match s' with
           | EmptyString => None
           | _ => Z.opp <$> parse_digits s' 0
           end
      else parse_digits s 0
  end.

(** ASCII lower case: SQLite compares table names without regard to the
    case of ASCII letters. *)
Definition ascii_lower (c : ascii) : ascii :=
  let n := Ascii.N_of_ascii c in
  if ((65 <=? n) && (n <=? 90))%N then Ascii.ascii_of_N (n + 32) else c.

Fixpoint string_lower (s : string) : string :=
  match s with
  | EmptyString => EmptyString
  | String c s' => String (ascii_lower c) (string_lower s')
  end.

(** The text after the first semicolon, if there is one. *)
Fixpoint after_semicolon (s : string) : option string :=
  match s with
  | EmptyString => None
  | String c s' => if Ascii.eqb c ";"%char then Some s' else after_semicolon s'
  end.

(** A reference store for examples: a database of tables, keyed by their
    lower-case names, that understands the one statement shape the handler
    produces with a bare table name, [SELECT * FROM t LIMIT n].  An unknown
    table, a limit that is not a literal (it is then read as a column name),
    a literal outside the 64-bit range and a second statement after a
    semicolon are reported the way SQLite and its driver report them.  Any
    other text is beyond this store and is refused as a syntax error;
    SQLite itself runs more than that (a [WHERE] clause after the table
    name, for one), so the store is used at bare table names only. *)
Definition sqlite_execute (db : gmap string (list Row)) (q : string)
    : store_error + list Row :=
  match String.words <$> after_semicolon q with
  | Some (_ :: _) =>
      inl (StoreError "ProgrammingError"
             "You can only execute one statement at a time.")
  | _ =>
      match String.words q with
      | [w1; w2; w3; t; w5; n] =>
          if bool_decide ([w1; w2; w3; w5] = ["SELECT"; "*"; "FROM"; "LIMIT"])
          then match db !! string_lower t with
               | None =>
                   inl (StoreError "OperationalError" ("no such table: " +:+ t))
               | Some rows =>
                   match parse_int_literal n with
                   | Some k => sqlite_limit k rows
                   | None =>
                       inl (StoreError "OperationalError"
                              ("no such column: " +:+ n))
                   end
               end
          else inl (StoreError "OperationalError" "syntax error")
      | _ => inl (StoreError "OperationalError" "syntax error")
      end
  end.

(** ** Rate limiter *)

(** Window lengths, in the milliseconds of the request clock. *)
Definition SECOND : Z := 1000.
Definition MINUTE : Z := 60000.

(** Modelled from the spec: the implementation behind [Limiter] (the
    rate-limiting middleware and its memory storage) is not under src/.
    Per client address there is one fixed-window counter per limit; a window
    is the span between two multiples of its length.  A hit moves the counter
    to the window of [now], starting from zero when that is a new window, and
    adds one. *)
Definition window_hit (key : string * Z) (now : Z)
    (st : gmap (string * Z) window) : Z * gmap (string * Z) window :=
  let idx := now / key.2 in
  let prev :=
    match st !! key with
    | Some w => if win_index w =? idx then win_count w else 0
    | None => 0
    end in
  (prev + 1, <[key := Window idx (prev + 1)]> st).

(** Modelled from the spec: the check made by the two [limiter.limit]
    decorators of [get_data] (the limiter itself is not under src/).  Each
    incoming request increments both windows of its client; if either count
    exceeds its threshold the request is rejected. *)
Definition limiter_check (config : Config) (client : string) (now : Z) : M unit :=
  fun w =>
    let '(n_minute, st1) := window_hit (client, MINUTE) now (storage w) in
    let '(n_second, st2) := window_hit (client, SECOND) now st1 in
    let w' := {| log := log w; executed := executed w; storage := st2 |} in
    if (n_second <=? rate_per_second config) && (n_minute <=? rate_per_minute config)
    then (Return tt, w')
    else (Raise RateLimitExceeded, w').

(** ** The endpoints *)

Record JSONResponse := { content : pydict; status_code : Z }.

(** [JSONResponse(content=payload, status_code=code)]: the constructor
    renders the payload at once, so a payload JSON cannot carry makes it
    raise instead of giving a response. *)
Definition render (payload : pydict) (code : Z) : outcome JSONResponse :=
  match json_dumps_error (PyDict payload) with
  | Some e => Raise e
  | None => Return {| content := payload; status_code := code |}
  end.

Definition JSONResponse_init (payload : pydict) (code : Z) : M JSONResponse :=
  fun w => (render payload code, w).

(** An incoming [POST /get_data] request: the remote address the limiter
    keys on, the credential pair decoded by the basic-auth scheme, the parsed
    body object, and the clock reading when it arrives. *)
Record Request := {
  client_host : string;
  credentials : HTTPBasicCredentials;
  body : gmap string json;
  arrival : Z
}.

Section Handlers.
Variable pyd : Pydantic.
Variable config : Config.
(** [utils.responses]: the static lookup of status fields. *)
Variable responses : gmap string pydict.
(** The store behind [SQLITE_DB]: what connecting, executing a statement
    and fetching all rows yields. *)
Variable execute : string -> store_error + list Row.

Definition select_query (params : RequestParams) : string :=
  "SELECT * FROM " +:+ source_table params +:+ " LIMIT "
    +:+ format_optional_int (limit params).

(** [with engine.connect() as conn: res = conn.execute(text(query)).fetchall()] *)
Definition connect_execute_fetchall (query : string) : M (list Row) :=
  fun w =>
    let w' := {| log := log w; executed := executed w ++ [query];
                 storage := storage w |} in
    match execute query with
    | inl e => (Raise (SQLAlchemyError e), w')
    | inr rows => (Return rows, w')
    end.

(** [**d] inside a dict display. *)
Definition unpack (d : option pydict) : M pydict :=
  match d with
  | Some fields => ret fields
  | None => raise (TypeError "'NoneType' object is not a mapping")
  end.

Definition get_data (params : RequestParams) : M JSONResponse :=
  let query := select_query params in
  let* r :=
    try_except
      (let* _ := logger_info "fetching records from the database..." in
       let* res := connect_execute_fetchall query in
       let* _ := (if Nat.eqb (length res) 0
                  then logger_warning "no records returned"
                  else ret tt) in
       let data := PyList ((fun row => PyDict (py_dict row)) <$> res) in
       let* fields := unpack (responses !! "SUCCESS") in
       let payload := dict_update [("data", data)] fields in
       ret (payload, HTTP_200_OK))
      is_HTTPException
      (fun e =>
         let* _ := logger_exception e in
         let* fields := unpack (responses !! "ERROR") in
         let payload := dict_update [("data", PyNone)] fields in
         ret (payload, HTTP_400_BAD_REQUEST)) in
  JSONResponse_init r.1 r.2.

(** [POST /get_data].  The auth dependency runs first; the framework then
    validates the body; the endpoint function it calls is [get_data]
    wrapped by the two limiter decorators, so the limiter runs on the
    validated call, right before the handler body. *)
Definition post_get_data (req : Request) : M JSONResponse :=
  let* _ := get_current_username config (credentials req) in
  let* params := validate_body pyd config (body req) in
  let* _ := limiter_check config (client_host req) (arrival req) in
  get_data params.

(** The process serving a sequence of requests, one after the other. *)
Definition serve (reqs : list Request) (w : world) : world :=
  fold_left (fun w req => (post_get_data req w).2) reqs w.
End Handlers.

(** The world of a freshly started process. *)
Definition initial_world : world :=
  {| log := []; executed := []; storage := ∅ |}.

(** The status line the framework answers with. *)
Definition http_status (r : outcome JSONResponse) : Z :=
  match r with
  | Return resp => status_code resp
  | Raise (HTTPException code _ _) => code
  | Raise RateLimitExceeded => HTTP_429_TOO_MANY_REQUESTS
  | Raise (RequestValidationError _) => HTTP_422_UNPROCESSABLE
  | Raise _ => 500
  end.

(** ** A concrete deployment, for examples *)

Module Demo.
Definition config : Config :=
  {| table_name := "events"; users_username := "admin";
     users_password := "s3cret"; rate_per_minute := 3; rate_per_second := 2 |}.

(** Reads JSON integers as [int] and JSON strings as [str], nothing else. *)
Definition pyd : Pydantic :=
  {| parse_int := fun v => match v with JInt n => Some n | _ => None end;
     parse_str := fun v => match v with JStr s => Some s | _ => None end;
     none_default_takes_null := false |}.

Definition responses : gmap string pydict :=
  {[ "SUCCESS" := [("message", PyStr "success"); ("code", PyInt 0)];
     "ERROR" := [("message", PyStr "error"); ("code", PyInt 1)] ]}.

Definition event (i : Z) (name : string) : Row :=
  [("id", PyInt i); ("name", PyStr name)].

Definition db : gmap string (list Row) :=
  {[ "events" := [event 1 "a"; event 2 "b"; event 3 "c"];
     "empty" := [] ]}.

Definition admin : HTTPBasicCredentials :=
  {| username := "admin"; password := "s3cret" |}.

Definition request (b : gmap string json) (t : Z) : Request :=
  {| client_host := "10.0.0.1"; credentials := admin; body := b; arrival := t |}.

Definition indices : gmap string json :=
  {[ "start_index" := JInt 0; "end_index" := JInt 10 ]}.

Definition post (b : gmap string json) (t : Z) (w : world) :=
  post_get_data pyd config responses (sqlite_execute db) (request b t) w.
End Demo.

(** ** Reference predicates and shorthands *)

(** Whether a credential pair is the configured admin account. *)
Definition authorized (config : Config) (c : HTTPBasicCredentials) : bool :=
  bool_decide (username c = users_username config)
  && bool_decide (password c = users_password config).

Definition unauthorized : exn :=
  HTTPException 401 "Incorrect username or password"
    [("WWW-Authenticate", "Basic")].

Definition add_log (r : log_record) (w : world) : world :=
  {| log := log w ++ [r]; executed := executed w; storage := storage w |}.

Definition add_executed (q : string) (w : world) : world :=
  {| log := log w; executed := executed w ++ [q]; storage := storage w |}.

Definition fetching : log_record :=
  LogRecord INFO "fetching records from the database...".

Definition no_records : log_record :=
  LogRecord WARNING "no records returned".

(** [data = [dict(row._mapping) for row in res]] *)
Definition rows_data (rows : list Row) : pyval :=
  PyList ((fun row => PyDict (py_dict row)) <$> rows).

(** [{"data": data, **fields}] *)
Definition success_payload (fields : pydict) (rows : list Row) : pydict :=
  dict_update [("data", rows_data rows)] fields.

(** JSON can carry the value: rendering it raises nothing. *)
Definition renderable (v : pyval) : Prop := json_dumps_error v = None.

(** The two exception classes rendering can raise. *)
Definition is_render_error (e : exn) : bool :=
  match e with
  | TypeError _ | ValueError _ => true
  | _ => false
  end.

(** The rows of a response, when it has a [data] list. *)
Definition response_rows (r : outcome JSONResponse) : option (list pyval) :=
  match r with
  | Return resp =>
      match dict_get "data" (content resp) with
      | Some (PyList xs) => Some xs
      | _ => None
      end
  | Raise _ => None
  end.

(** ** Histories of requests *)

Section History.
Variable pyd : Pydantic.
Variable config : Config.
Variable responses : gmap string pydict.
Variable execute : string -> store_error + list Row.

(** The request gets as far as the limiter: it passes the auth dependency
    and its body validates. *)
Definition reaches_limiter (req : Request) : bool :=
  authorized config (credentials req)
  && match RequestParams_validate pyd config (body req) with
     | inr _ => true
     | inl _ => false
     end.

(** Whether [r] is a request of [client] that the limiter counted in
    window number [idx] of length [period]. *)
Definition counted (client : string) (period idx : Z) (r : Request) : bool :=
  reaches_limiter r
  && bool_decide (client_host r = client)
  && (arrival r / period =? idx).

(** How many requests of [hist] were counted for [client] in that window. *)
Definition hits (hist : list Request) (client : string) (period idx : Z) : Z :=
  foldr (fun r n => if counted client period idx r then n + 1 else n) 0 hist.

(** Requests listed in the order of their arrival. *)
Definition chronological (reqs : list Request) : Prop :=
  StronglySorted (fun r1 r2 => arrival r1 <= arrival r2) reqs.

(** What the storage holds for one client and one limit after [hist]. *)
Definition window_inv (hist : list Request) (client : string) (period : Z)
    (o : option window) : Prop :=
  match o with
  | None => forall idx, hits hist client period idx = 0
  | Some win =>
      win_count win = hits hist client period (win_index win)
      /\ (forall idx, win_index win < idx -> hits hist client period idx = 0)
      /\ (exists r, r ∈ hist /\ win_index win = arrival r / period)
  end.

Definition limiter_inv (hist : list Request)
    (st : gmap (string * Z) window) : Prop :=
  forall client period,
    period = SECOND \/ period = MINUTE ->
    window_inv hist client period (st !! (client, period)).

(** The request passes the limiter and the handler runs on its
    parameters. *)
Definition handled (req : Request) (params : RequestParams) (w : world) : Prop :=
  exists w1,
    limiter_check config (client_host req) (arrival req) w = (Return tt, w1)
    /\ post_get_data pyd config responses execute req w
       = get_data responses execute params w1
    /\ executed (post_get_data pyd config responses execute req w).2
       = executed w ++ [select_query params].
End History.

Module Blob.
(** A table with a [bytes] cell and a table with an infinite [float]. *)
Definition db : gmap string (list Row) :=
  {[ "files" := [[("id", PyInt 1); ("content", PyBytes [Byte.x00; Byte.xff])]];
     "readings" := [[("id", PyInt 1); ("value", PyFloat 9218868437227405312)]] ]}.

Definition params (t : string) : RequestParams :=
  {| source_table := t; start_index := 0; end_index := 10; limit := Some 5;
     start_date := None; end_date := None |}.

Definition post (t : string) :=
  post_get_data Demo.pyd Demo.config Demo.responses (sqlite_execute db)
    (Demo.request (<["source_table" := JStr t]> Demo.indices) 0) initial_world.
End Blob.

Module Bursts.
(** Four requests of one client within one second: three with a body that
    fails validation, then one with an accepted body. *)
Definition invalid_body : gmap string json := {[ "end_index" := JInt 10 ]}.

Definition earlier : list Request :=
  [Demo.request invalid_body 0; Demo.request invalid_body 1;
   Demo.request invalid_body 2].

Definition fourth : Request := Demo.request Demo.indices 3.
End Bursts.

Module BigTable.
(** A table of 1001 rows. *)
Definition db : gmap string (list Row) :=
  {[ "events" := (fun i => Demo.event (Z.of_nat i) "x") <$> seq 0 1001 ]}.

Definition body : gmap string json := <["limit" := JInt (-1)]> Demo.indices.
End BigTable.

(** * Properties *)

(** ** The monad *)

Lemma bind_Return {A B} (m : M A) (k : A -> M B) w a w' :
  m w = (Return a, w') -> bind m k w = k a w'.
Proof. intros H. unfold bind. by rewrite H. Qed.

Lemma bind_Raise {A B} (m : M A) (k : A -> M B) w e w' :
  m w = (Raise e, w') -> bind m k w = (Raise e, w').
Proof. intros H. unfold bind. by rewrite H. Qed.

(** ** Credential checker *)

Lemma tscmp_loop_acc lhs rhs acc :
  tscmp_loop lhs rhs acc = 0 -> acc = 0.
Proof.
  revert lhs acc. induction rhs as [|r rhs IH]; intros lhs acc; simpl.
  - done.
  - destruct lhs as [|l lhs]; [done|].
    intros H. apply IH in H. apply Z.lor_eq_0_iff in H. tauto.
Qed.

Lemma tscmp_loop_zero lhs rhs acc :
  length lhs = length rhs ->
  tscmp_loop lhs rhs acc = 0 <-> acc = 0 /\ lhs = rhs.
Proof.
  revert lhs acc. induction rhs as [|r rhs IH]; intros [|l lhs] acc Hlen;
    simpl in *; try discriminate.
  - split; [by intros -> | by intros [-> _]].
  - rewrite IH by lia. rewrite Z.lor_eq_0_iff, Z.lxor_eq_0_iff.
    split; [intros [[-> ->] ->] | intros [-> [= -> ->]]]; done.
Qed.

Lemma compare_digest_true a b : compare_digest a b = true <-> a = b.
Proof.
  unfold compare_digest.
  destruct (Nat.eqb (length a) (length b)) eqn:Hlen; simpl;
    rewrite Z.eqb_eq.
  - apply Nat.eqb_eq in Hlen. rewrite tscmp_loop_zero by done.
    split; [by intros [_ ->] | by intros ->].
  - apply Nat.eqb_neq in Hlen. split.
    + intros H. by apply tscmp_loop_acc in H.
    + intros ->. done.
Qed.

Lemma byte_code_inj b1 b2 :
  Z.of_N (Byte.to_N b1) = Z.of_N (Byte.to_N b2) -> b1 = b2.
Proof.
  intros H. apply N2Z.inj in H.
  assert (Some b1 = Some b2) as [= ->]; [|done].
  by rewrite <- !Byte.of_to_N, H.
Qed.

Lemma encode_utf8_inj s1 s2 : encode_utf8 s1 = encode_utf8 s2 -> s1 = s2.
Proof.
  unfold encode_utf8. intros H.
  rewrite <- (string_of_list_byte_of_string s1),
          <- (string_of_list_byte_of_string s2).
  f_equal. revert H.
  generalize (list_byte_of_string s1) (list_byte_of_string s2).
  induction l as [|b1 l IH]; intros [|b2 l2]; simpl; try done.
  intros [= Hb Hl]. f_equal; [by apply byte_code_inj | by apply IH].
Qed.

Lemma compare_digest_encode s1 s2 :
  compare_digest (encode_utf8 s1) (encode_utf8 s2) = bool_decide (s1 = s2).
Proof.
  apply eq_true_iff_eq. rewrite compare_digest_true, bool_decide_eq_true.
  split; [apply encode_utf8_inj | by intros ->].
Qed.

Lemma get_current_username_spec config c w :
  get_current_username config c w =
    if authorized config c then (Return (username c), w)
    else (Raise unauthorized, w).
Proof.
  unfold get_current_username, authorized.
  rewrite !compare_digest_encode.
  by destruct (bool_decide _), (bool_decide _).
Qed.

(** C2: for every credential pair, [GET /users/me] answers with the username
    exactly when both the username and the password equal the configured
    admin values; every other pair fails with a 401 error that carries the
    [WWW-Authenticate] challenge header; either way the log, the store and
    the limiter are left as they were. *)
Theorem users_me_authenticates config (c : HTTPBasicCredentials) (w : world) :
  get_users_me config c w =
    if bool_decide (username c = users_username config
                    /\ password c = users_password config)
    then (Return [("username", PyStr (username c))], w)
    else (Raise (HTTPException HTTP_401_UNAUTHORIZED
                   "Incorrect username or password"
                   [("WWW-Authenticate", "Basic")]), w).
Proof.
  unfold get_users_me, bind. rewrite get_current_username_spec.
  unfold authorized.
  destruct (decide (username c = users_username config)) as [Hu|Hu];
    destruct (decide (password c = users_password config)) as [Hp|Hp].
  - rewrite !bool_decide_eq_true_2 by done. done.
  - rewrite (bool_decide_eq_false_2 (password c = _)) by done.
    rewrite (bool_decide_eq_false_2 (_ /\ _)) by tauto.
    by rewrite andb_false_r.
  - rewrite (bool_decide_eq_false_2 (username c = _)) by done.
    rewrite (bool_decide_eq_false_2 (_ /\ _)) by tauto. done.
  - rewrite (bool_decide_eq_false_2 (username c = _)) by done.
    rewrite (bool_decide_eq_false_2 (_ /\ _)) by tauto. done.
Qed.

(** ** Python dicts *)

Lemma dict_set_fresh k v (d : pydict) :
  k ∉ d.*1 -> dict_set k v d = d ++ [(k, v)].
Proof.
  induction d as [|[k' v'] d IH]; simpl; intros Hk; [done|].
  apply not_elem_of_cons in Hk as [Hne Hk].
  destruct (String.eqb_spec k k') as [->|_]; [done|].
  by rewrite IH.
Qed.

Lemma dict_update_fresh (d items : pydict) :
  NoDup (d.*1 ++ items.*1) -> dict_update d items = d ++ items.
Proof.
  unfold dict_update. revert d.
  induction items as [|[k v] items IH]; simpl; intros d Hnd.
  - by rewrite app_nil_r.
  - apply NoDup_app in Hnd as (Hd & Hdisj & Hitems).
    apply NoDup_cons in Hitems as [Hk Hitems].
    rewrite dict_set_fresh by (intros Hin; by apply (Hdisj k Hin); left).
    rewrite IH, <- app_assoc; [done|].
    rewrite fmap_app. simpl. rewrite <- app_assoc. simpl.
    apply NoDup_app. split_and!; [done| |by apply NoDup_cons].
    intros x Hx Hx'. by apply (Hdisj x Hx).
Qed.

Lemma py_dict_distinct (items : pydict) :
  NoDup items.*1 -> py_dict items = items.
Proof. intros H. unfold py_dict. by rewrite dict_update_fresh. Qed.

Lemma envelope_fresh (data : pyval) (fields : pydict) :
  NoDup ("data" :: fields.*1) ->
  dict_update [("data", data)] fields = ("data", data) :: fields.
Proof. intros H. by rewrite dict_update_fresh. Qed.

Lemma map_py_dict_distinct (rows : list Row) :
  Forall (fun row => NoDup row.*1) rows ->
  (fun row => PyDict (py_dict row)) <$> rows = PyDict <$> rows.
Proof.
  induction 1 as [|row rows Hrow _ IH]; csimpl; [done|].
  by rewrite py_dict_distinct, IH.
Qed.

(** ** Rendering *)

Lemma json_dumps_error_list_cons x xs :
  json_dumps_error (PyList (x :: xs)) =
    match json_dumps_error x with
    | Some e => Some e
    | None => json_dumps_error (PyList xs)
    end.
Proof. reflexivity. Qed.

Lemma json_dumps_error_dict_cons k x (items : pydict) :
  json_dumps_error (PyDict ((k, x) :: items)) =
    match json_dumps_error x with
    | Some e => Some e
    | None => json_dumps_error (PyDict items)
    end.
Proof. reflexivity. Qed.

Lemma renderable_list xs :
  renderable (PyList xs) <-> Forall renderable xs.
Proof.
  unfold renderable. induction xs as [|x xs IH].
  - split; [by constructor|done].
  - rewrite json_dumps_error_list_cons, Forall_cons, <- IH.
    destruct (json_dumps_error x); [|tauto].
    split; [done|by intros [? _]].
Qed.

Lemma renderable_dict (items : pydict) :
  renderable (PyDict items) <-> Forall (fun kv => renderable kv.2) items.
Proof.
  unfold renderable. induction items as [|[k x] items IH].
  - split; [by constructor|done].
  - rewrite json_dumps_error_dict_cons, Forall_cons, <- IH. simpl.
    destruct (json_dumps_error x); [|tauto].
    split; [done|by intros [? _]].
Qed.

Lemma renderable_dict_set k v (d : pydict) :
  renderable v -> renderable (PyDict d) -> renderable (PyDict (dict_set k v d)).
Proof.
  rewrite !renderable_dict. intros Hv.
  induction d as [|[k' v'] d IH]; simpl; intros Hd.
  - by repeat constructor.
  - apply Forall_cons in Hd as [Hv' Hd].
    destruct (String.eqb k k'); constructor; auto.
Qed.

Lemma renderable_dict_update (d items : pydict) :
  renderable (PyDict d) -> renderable (PyDict items) ->
  renderable (PyDict (dict_update d items)).
Proof.
  unfold dict_update. revert d.
  induction items as [|[k v] items IH]; simpl; intros d Hd Hitems; [done|].
  apply renderable_dict in Hitems. apply Forall_cons in Hitems as [Hv Hitems].
  apply IH; [by apply renderable_dict_set|by apply renderable_dict].
Qed.

Lemma renderable_py_dict (items : pydict) :
  renderable (PyDict items) -> renderable (PyDict (py_dict items)).
Proof. intros H. by apply renderable_dict_update. Qed.

Lemma renderable_rows_data (rows : list Row) :
  Forall (fun row => renderable (PyDict row)) rows -> renderable (rows_data rows).
Proof.
  intros H. apply renderable_list. apply Forall_fmap.
  eapply Forall_impl; [exact H|]. intros row Hrow. by apply renderable_py_dict.
Qed.

Lemma renderable_success_payload (fields : pydict) (rows : list Row) :
  renderable (PyDict fields) ->
  Forall (fun row => renderable (PyDict row)) rows ->
  renderable (PyDict (success_payload fields rows)).
Proof.
  intros Hf Hrows. apply renderable_dict_update; [|done].
  apply renderable_dict. repeat constructor. by apply renderable_rows_data.
Qed.

Lemma render_ok (payload : pydict) (code : Z) :
  renderable (PyDict payload) ->
  render payload code = Return {| content := payload; status_code := code |}.
Proof. unfold renderable, render. by intros ->. Qed.

(** Induction over a value and the values nested in it. *)
Lemma pyval_nested_ind (P : pyval -> Prop) :
  P PyNone -> (forall b, P (PyBool b)) -> (forall n, P (PyInt n)) ->
  (forall bits, P (PyFloat bits)) -> (forall s, P (PyStr s)) ->
  (forall bs, P (PyBytes bs)) ->
  (forall xs, Forall P xs -> P (PyList xs)) ->
  (forall items : pydict, Forall (fun kv => P kv.2) items -> P (PyDict items)) ->
  forall v, P v.
Proof.
  intros Hnone Hbool Hint Hfloat Hstr Hbytes Hlist Hdict.
  exact (fix F (v : pyval) : P v :=
           match v with
           | PyNone => Hnone
           | PyBool b => Hbool b
           | PyInt n => Hint n
           | PyFloat bits => Hfloat bits
           | PyStr s => Hstr s
           | PyBytes bs => Hbytes bs
           | PyList xs =>
               Hlist xs
                 ((fix G (xs : list pyval) : Forall P xs :=
                     match xs with
                     | [] => @List.Forall_nil _ P
                     | x :: xs' => @List.Forall_cons _ P x xs' (F x) (G xs')
                     end) xs)
           | PyDict items =>
               Hdict items
                 ((fix G (items : pydict) : Forall (fun kv => P kv.2) items :=
                     match items with
                     | [] => @List.Forall_nil _ (fun kv => P kv.2)
                     | kv :: items' =>
                         @List.Forall_cons _ (fun kv => P kv.2) kv items' (F kv.2) (G items')
                     end) items)
           end).
Qed.

(** Rendering raises a [TypeError] or a [ValueError], nothing else. *)
Lemma json_dumps_error_kind v e :
  json_dumps_error v = Some e -> is_render_error e = true.
Proof.
  revert e. induction v as [ | | |bits| | |xs IHxs|items IHitems]
    using pyval_nested_ind; intros e.
  1-3,5: discriminate.
  - cbn [json_dumps_error]. destruct (float_is_finite bits); [discriminate|].
    by intros [= <-].
  - cbn [json_dumps_error]. by intros [= <-].
  - induction IHxs as [|x xs Hx _ IH]; [discriminate|].
    rewrite json_dumps_error_list_cons.
    destruct (json_dumps_error x) as [e'|] eqn:Ex; [|exact IH].
    intros [= <-]. by apply Hx.
  - induction IHitems as [|[k x] items Hx _ IH]; [discriminate|].
    rewrite json_dumps_error_dict_cons.
    destruct (json_dumps_error x) as [e'|] eqn:Ex; [|exact IH].
    intros [= <-]. by apply Hx.
Qed.

Lemma render_error_not_http e : is_render_error e = true -> is_HTTPException e = false.
Proof. by destruct e. Qed.

(** ** The handler *)

Section HandlerFacts.
Variable pyd : Pydantic.
Variable config : Config.
Variable responses : gmap string pydict.
Variable execute : string -> store_error + list Row.

(** What one call of [get_data] does, path by path. *)
Lemma get_data_run params w :
  get_data responses execute params w =
    let w1 := add_executed (select_query params) (add_log fetching w) in
    match execute (select_query params) with
    | inl e => (Raise (SQLAlchemyError e), w1)
    | inr rows =>
        let w2 := if Nat.eqb (length rows) 0 then add_log no_records w1 else w1 in
        match responses !! "SUCCESS" with
        | Some fields => (render (success_payload fields rows) 200, w2)
        | None => (Raise (TypeError "'NoneType' object is not a mapping"), w2)
        end
    end.
Proof.
  unfold get_data, try_except, bind, connect_execute_fetchall, logger_info,
    logger_warning, logger_emit, unpack, ret, raise, JSONResponse_init; simpl.
  destruct (execute (select_query params)) as [e|rows]; simpl; [done|].
  destruct (Nat.eqb (length rows) 0); simpl;
    destruct (responses !! "SUCCESS"); done.
Qed.

Lemma get_data_storage params w :
  storage (get_data responses execute params w).2 = storage w.
Proof.
  rewrite get_data_run.
  destruct (execute (select_query params)) as [e|rows]; simpl; [done|].
  destruct (responses !! "SUCCESS"), (Nat.eqb (length rows) 0); done.
Qed.

Lemma get_data_executed params w :
  executed (get_data responses execute params w).2
    = executed w ++ [select_query params].
Proof.
  rewrite get_data_run.
  destruct (execute (select_query params)) as [e|rows]; simpl; [done|].
  destruct (responses !! "SUCCESS"), (Nat.eqb (length rows) 0); done.
Qed.

(** The request reaches the limiter: auth passes and the body validates. *)
Lemma post_get_data_validated req params w :
  authorized config (credentials req) = true ->
  RequestParams_validate pyd config (body req) = inr params ->
  post_get_data pyd config responses execute req w =
    bind (limiter_check config (client_host req) (arrival req))
         (fun _ => get_data responses execute params) w.
Proof.
  intros Hauth Hval. unfold post_get_data.
  rewrite (bind_Return _ _ w (username (credentials req)) w)
    by (by rewrite get_current_username_spec, Hauth).
  rewrite (bind_Return _ _ w params w); [done|].
  unfold validate_body. by rewrite Hval.
Qed.

Lemma post_get_data_unauthorized req w :
  authorized config (credentials req) = false ->
  post_get_data pyd config responses execute req w = (Raise unauthorized, w).
Proof.
  intros Hauth. unfold post_get_data.
  apply bind_Raise. by rewrite get_current_username_spec, Hauth.
Qed.

Lemma post_get_data_invalid req errors w :
  authorized config (credentials req) = true ->
  RequestParams_validate pyd config (body req) = inl errors ->
  post_get_data pyd config responses execute req w =
    (Raise (RequestValidationError errors), w).
Proof.
  intros Hauth Hval. unfold post_get_data.
  rewrite (bind_Return _ _ w (username (credentials req)) w)
    by (by rewrite get_current_username_spec, Hauth).
  apply bind_Raise. unfold validate_body. by rewrite Hval.
Qed.

Lemma limiter_check_frame client now w r w' :
  limiter_check config client now w = (r, w') ->
  log w' = log w /\ executed w' = executed w.
Proof.
  unfold limiter_check. destruct (window_hit _ _ _) as [n1 st1].
  destruct (window_hit _ _ st1) as [n2 st2].
  destruct (_ && _); intros [= <- <-]; done.
Qed.
End HandlerFacts.

(** ** Validation *)

Section ValidationFacts.
Variable pyd : Pydantic.
Variable config : Config.

(** Validation succeeds exactly when every field does. *)
Lemma RequestParams_validate_cases body :
  (exists p,
      RequestParams_validate pyd config body = inr p
      /\ validate_source_table pyd config body = inr (source_table p)
      /\ validate_index pyd "start_index" body = inr (start_index p)
      /\ validate_index pyd "end_index" body = inr (end_index p)
      /\ validate_limit pyd body = inr (limit p)
      /\ validate_date pyd "start_date" body = inr (start_date p)
      /\ validate_date pyd "end_date" body = inr (end_date p))
  \/ (RequestParams_validate pyd config body = inl (all_errors pyd config body)
      /\ all_errors pyd config body <> []).
Proof.
  unfold RequestParams_validate, all_errors.
  destruct (validate_source_table pyd config body) as [e1|a];
    destruct (validate_index pyd "start_index" body) as [e2|b];
    destruct (validate_index pyd "end_index" body) as [e3|c];
    destruct (validate_limit pyd body) as [e4|d];
    destruct (validate_date pyd "start_date" body) as [e5|e];
    destruct (validate_date pyd "end_date" body) as [e6|f];
    simpl; first [ by right | left; eexists; split_and!; reflexivity ].
Qed.

Lemma RequestParams_validate_inr body p :
  RequestParams_validate pyd config body = inr p ->
  validate_source_table pyd config body = inr (source_table p)
  /\ validate_index pyd "start_index" body = inr (start_index p)
  /\ validate_index pyd "end_index" body = inr (end_index p)
  /\ validate_limit pyd body = inr (limit p)
  /\ validate_date pyd "start_date" body = inr (start_date p)
  /\ validate_date pyd "end_date" body = inr (end_date p).
Proof.
  intros Hp.
  destruct (RequestParams_validate_cases body) as [(p' & Hp' & H)|[He _]].
  - rewrite Hp in Hp'. by injection Hp' as <-.
  - by rewrite Hp in He.
Qed.

(** One failing field fails the body, and its error is reported. *)
Lemma RequestParams_validate_field_error body name e :
  (name, e) ∈ all_errors pyd config body ->
  RequestParams_validate pyd config body = inl (all_errors pyd config body).
Proof.
  intros Hin.
  destruct (RequestParams_validate_cases body) as [(p & _ & H)|[He _]]; [|done].
  destruct H as (H1 & H2 & H3 & H4 & H5 & H6).
  unfold all_errors in Hin. rewrite H1, H2, H3, H4, H5, H6 in Hin.
  simpl in Hin. by apply elem_of_nil in Hin.
Qed.

Lemma int_field_inr ge le v n :
  int_field pyd ge le v = inr n ->
  v <> JNull /\ parse_int pyd v = Some n
  /\ (forall lo, ge = Some lo -> lo <= n)
  /\ (forall hi, le = Some hi -> n <= hi).
Proof.
  unfold int_field. intros H.
  assert (v <> JNull) as Hv by (by intros ->).
  assert (match parse_int pyd v with
          | None => inl int_type
          | Some n =>
              if match ge with Some lo => n <? lo | None => false end
              then inl greater_than_equal
              else if match le with Some hi => hi <? n | None => false end
              then inl less_than_equal else inr n
          end = inr n) as H' by (by destruct v).
  clear H. destruct (parse_int pyd v) as [m|]; [|done].
  destruct ge as [lo|], le as [hi|]; simpl in H';
    repeat match type of H' with
      | context [?a <? ?b] => destruct (Z.ltb_spec a b)
      end; try discriminate; injection H' as ->;
    split_and!; try done; intros ? [= <-]; lia.
Qed.

Lemma int_field_below lo le v n :
  v <> JNull -> parse_int pyd v = Some n -> n < lo ->
  int_field pyd (Some lo) le v = inl greater_than_equal.
Proof.
  intros Hv Hn Hlt. unfold int_field.
  destruct v; try done; rewrite Hn;
    by destruct (Z.ltb_spec n lo); [|lia].
Qed.

Lemma int_field_above hi v n :
  v <> JNull -> parse_int pyd v = Some n -> hi < n ->
  int_field pyd None (Some hi) v = inl less_than_equal.
Proof.
  intros Hv Hn Hlt. unfold int_field.
  destruct v; try done; rewrite Hn;
    by destruct (Z.ltb_spec hi n); [|lia].
Qed.

Lemma validate_limit_above body v n :
  body !! "limit" = Some v -> v <> JNull -> parse_int pyd v = Some n ->
  1000 < n -> validate_limit pyd body = inl less_than_equal.
Proof.
  intros Hb Hv Hn Hlt. unfold validate_limit. rewrite Hb.
  rewrite (int_field_above 1000 v n) by done. by destruct v.
Qed.

(** An accepted integer limit is at most 1000. *)
Lemma validate_limit_le body n :
  validate_limit pyd body = inr (Some n) -> n <= 1000.
Proof.
  unfold validate_limit. destruct (body !! "limit") as [v|]; [|intros [= <-]; lia].
  assert (match int_field pyd None (Some 1000) v with
          | inl e => inl e | inr n => inr (Some n) end = inr (Some n) -> n <= 1000).
  { destruct (int_field pyd None (Some 1000) v) as [|m] eqn:Hf; [done|].
    intros [= ->]. apply int_field_inr in Hf as (_ & _ & _ & Hle). by apply Hle. }
  destruct v; try done.
Qed.

Lemma validated_limit_le body p n :
  RequestParams_validate pyd config body = inr p ->
  limit p = Some n -> n <= 1000.
Proof.
  intros Hp Hn. apply RequestParams_validate_inr in Hp as (_ & _ & _ & Hl & _).
  rewrite Hn in Hl. by apply validate_limit_le in Hl.
Qed.

Lemma validate_index_inr name body n :
  validate_index pyd name body = inr n ->
  0 <= n /\ exists v, body !! name = Some v /\ v <> JNull /\ parse_int pyd v = Some n.
Proof.
  unfold validate_index. destruct (body !! name) as [v|]; [|done].
  intros H. apply int_field_inr in H as (Hv & Hn & Hge & _).
  split; [by apply Hge | by exists v].
Qed.
End ValidationFacts.

(** ** Query execution *)

Lemma sql_limit_all {A} (n : Z) (rows : list A) :
  Z.of_nat (length rows) < n -> sql_limit n rows = rows.
Proof.
  intros H. unfold sql_limit.
  destruct (Z.ltb_spec n 0); [done|]. apply take_ge. lia.
Qed.

Lemma sql_limit_bound {A} (n : Z) (rows : list A) :
  0 <= n -> Z.of_nat (length (sql_limit n rows)) <= n.
Proof.
  intros H. unfold sql_limit.
  destruct (Z.ltb_spec n 0); [lia|]. rewrite length_take. lia.
Qed.

(** ** The statement text *)

Lemma digit_of_pretty_N_char (d : N) :
  (d < 10)%N -> digit_of (pretty_N_char d) = Some (Z.of_N d).
Proof.
  intros H.
  assert (d = 0 \/ d = 1 \/ d = 2 \/ d = 3 \/ d = 4 \/ d = 5 \/ d = 6
          \/ d = 7 \/ d = 8 \/ d = 9)%N as Hd by lia.
  by repeat (destruct Hd as [->|Hd]); subst.
Qed.

Lemma parse_digits_app s1 s2 acc :
  parse_digits (s1 +:+ s2) acc =
    match parse_digits s1 acc with
    | Some a => parse_digits s2 a
    | None => None
    end.
Proof.
  revert acc. induction s1 as [|c s1 IH]; intros acc; simpl; [done|].
  destruct (digit_of c); [apply IH|done].
Qed.

Lemma string_app_assoc (s1 s2 s3 : string) :
  (s1 +:+ s2) +:+ s3 = s1 +:+ (s2 +:+ s3).
Proof.
  induction s1 as [|c s1 IH]; [done|].
  change (String c ((s1 +:+ s2) +:+ s3) = String c (s1 +:+ (s2 +:+ s3))).
  by rewrite IH.
Qed.

Lemma pretty_N_go_app (x : N) (s : string) :
  pretty_N_go x s = pretty_N_go x "" +:+ s.
Proof.
  revert s. induction (N.lt_wf_0 x) as [x _ IH]; intros s.
  destruct (decide (x = 0)%N) as [->|Hx].
  - by rewrite !pretty_N_go_0.
  - rewrite (pretty_N_go_step x s), (pretty_N_go_step x "") by lia.
    assert (x `div` 10 < x)%N as Hlt by (apply N.div_lt; lia).
    rewrite (IH _ Hlt (String _ s)), (IH _ Hlt (String _ "")).
    by rewrite string_app_assoc.
Qed.

Lemma parse_digits_pretty_N_go (x : N) :
  parse_digits (pretty_N_go x "") 0 = Some (Z.of_N x).
Proof.
  induction (N.lt_wf_0 x) as [x _ IH].
  destruct (decide (x = 0)%N) as [->|Hx]; [done|].
  rewrite pretty_N_go_step by lia. rewrite pretty_N_go_app, parse_digits_app.
  rewrite IH by (apply N.div_lt; lia). simpl.
  rewrite digit_of_pretty_N_char by (apply N.mod_lt; lia).
  f_equal. rewrite (N.div_mod x 10) at 3 by lia. lia.
Qed.

Lemma pretty_N_go_nonempty (x : N) :
  (0 < x)%N -> pretty_N_go x "" <> "".
Proof.
  intros Hx. rewrite pretty_N_go_step by done. rewrite pretty_N_go_app.
  by destruct (pretty_N_go (x `div` 10) "").
Qed.

Lemma parse_int_literal_digits (s : string) (v : Z) :
  s <> "" -> parse_digits s 0 = Some v -> parse_int_literal s = Some v.
Proof.
  destruct s as [|c s]; [done|]. intros _ H. unfold parse_int_literal.
  destruct (Ascii.eqb_spec c "-"%char) as [->|_]; [|done].
  by simpl in H.
Qed.

(** The text [str(n)] is the decimal numeral of [n]. *)
Lemma parse_int_literal_pretty (n : Z) : parse_int_literal (pretty n) = Some n.
Proof.
  destruct n as [|p|p].
  - done.
  - unfold pretty, pretty_Z, pretty, pretty_positive, pretty, pretty_N.
    rewrite decide_False by done.
    apply parse_int_literal_digits; [by apply pretty_N_go_nonempty|].
    by rewrite parse_digits_pretty_N_go.
  - unfold pretty, pretty_Z, pretty, pretty_positive, pretty, pretty_N.
    rewrite decide_False by done.
    pose proof (pretty_N_go_nonempty (N.pos p) eq_refl) as Hne.
    pose proof (parse_digits_pretty_N_go (N.pos p)) as Hp.
    change ("-" +:+ pretty_N_go (N.pos p) "")
      with (String "-" (pretty_N_go (N.pos p) "")).
    unfold parse_int_literal. rewrite Ascii.eqb_refl.
    destruct (pretty_N_go (N.pos p) "") as [|c s] eqn:E; [done|].
    by rewrite Hp.
Qed.

(** ** The success payload *)

Lemma success_payload_fresh (fields : pydict) (rows : list Row) :
  NoDup ("data" :: fields.*1) ->
  success_payload fields rows = ("data", rows_data rows) :: fields.
Proof. intros H. unfold success_payload. by rewrite envelope_fresh. Qed.

(** A request past the limiter whose statement returns rows that JSON can
    carry gets the 200 response around them. *)
Lemma post_get_data_rows pyd config responses execute
    (req : Request) (params : RequestParams) (fields : pydict)
    (rows : list Row) (w w1 : world) :
  authorized config (credentials req) = true ->
  RequestParams_validate pyd config (body req) = inr params ->
  limiter_check config (client_host req) (arrival req) w = (Return tt, w1) ->
  responses !! "SUCCESS" = Some fields ->
  NoDup ("data" :: fields.*1) ->
  renderable (PyDict fields) ->
  execute (select_query params) = inr rows ->
  Forall (fun row => renderable (PyDict row)) rows ->
  (post_get_data pyd config responses execute req w).1 =
    Return {| content := ("data", rows_data rows) :: fields; status_code := 200 |}.
Proof.
  intros Hauth Hval Hlim Hsucc Hfresh Hfields Hq Hrows.
  rewrite (post_get_data_validated _ _ _ _ _ params) by done.
  unfold bind. rewrite Hlim, get_data_run, Hq, Hsucc. cbv zeta.
  rewrite render_ok by (by apply renderable_success_payload).
  by rewrite success_payload_fresh.
Qed.

(** C1, as the code has it: a request that passes auth, validation and the
    limiter makes [get_data] send exactly one statement to the store, the
    text [SELECT * FROM <source_table> LIMIT <limit>] with an integer limit
    written as its decimal numeral; when every cell of the returned rows and
    every SUCCESS field is a value JSON can carry, each row is turned into a
    record keyed by column name (the row itself when its column names are
    distinct) and, the table holding fewer rows than the limit, the response
    is 200 with the SUCCESS fields and [data] holding exactly those rows in
    order. *)
Theorem get_data_selects_and_wraps pyd config responses execute
    (req : Request) (params : RequestParams) (fields : pydict) (w w1 : world) :
  authorized config (credentials req) = true ->
  RequestParams_validate pyd config (body req) = inr params ->
  limiter_check config (client_host req) (arrival req) w = (Return tt, w1) ->
  responses !! "SUCCESS" = Some fields ->
  NoDup ("data" :: fields.*1) ->
  renderable (PyDict fields) ->
  let limit_text :=
    match limit params with
    | Some n => pretty n
    | None => "None"
    end in
  let query := "SELECT * FROM " +:+ source_table params +:+ " LIMIT "
                 +:+ limit_text in
  let result := post_get_data pyd config responses execute req w in
  executed result.2 = executed w ++ [query]
  /\ (forall n, limit params = Some n -> parse_int_literal limit_text = Some n)
  /\ (forall rows,
        execute query = inr rows ->
        Forall (fun row => renderable (PyDict row)) rows ->
        result.1 = Return
          {| content :=
               ("data", PyList ((fun row => PyDict (py_dict row)) <$> rows)) :: fields;
             status_code := 200 |})
  /\ (forall row : Row, NoDup row.*1 -> py_dict row = row)
  /\ (forall n rows,
        limit params = Some n ->
        execute query = inr (sql_limit n rows) ->
        Z.of_nat (length rows) < n ->
        Forall (fun row : Row => NoDup row.*1) rows ->
        Forall (fun row => renderable (PyDict row)) rows ->
        result.1 = Return
          {| content := ("data", PyList (PyDict <$> rows)) :: fields;
             status_code := 200 |}).
Proof.
  intros Hauth Hval Hlim Hsucc Hfresh Hfields limit_text query result.
  assert (select_query params = query) as Hquery.
  { unfold select_query, query, limit_text, format_optional_int, str_int.
    by destruct (limit params). }
  assert (forall rows,
            execute query = inr rows ->
            Forall (fun row => renderable (PyDict row)) rows ->
            result.1 = Return
              {| content := ("data", rows_data rows) :: fields;
                 status_code := 200 |}) as Hrows.
  { intros rows Hq Hr. rewrite <- Hquery in Hq.
    by apply (post_get_data_rows _ _ _ _ _ params _ _ _ w1). }
  split_and!.
  - unfold result. rewrite (post_get_data_validated _ _ _ _ _ params) by done.
    unfold bind. rewrite Hlim, get_data_executed, Hquery.
    by apply limiter_check_frame in Hlim as [_ ->].
  - intros n Hn. unfold limit_text. rewrite Hn. apply parse_int_literal_pretty.
  - done.
  - apply py_dict_distinct.
  - intros n rows Hn Hq Hlen Hcols Hr.
    rewrite sql_limit_all in Hq by done.
    rewrite (Hrows rows Hq Hr). unfold rows_data.
    by rewrite map_py_dict_distinct.
Qed.

Lemma get_data_selects_and_wraps_witness :
  (Demo.post Demo.indices 0 initial_world).1 =
    Return {| content :=
                [("data", PyList [PyDict (Demo.event 1 "a");
                                  PyDict (Demo.event 2 "b");
                                  PyDict (Demo.event 3 "c")]);
                 ("message", PyStr "success"); ("code", PyInt 0)];
              status_code := 200 |}.
Proof.
  refine (proj2 (proj2 (proj2 (proj2
    (get_data_selects_and_wraps Demo.pyd Demo.config Demo.responses
       (sqlite_execute Demo.db) (Demo.request Demo.indices 0)
       {| source_table := "events"; start_index := 0; end_index := 10;
          limit := Some 5; start_date := None; end_date := None |}
       [("message", PyStr "success"); ("code", PyInt 0)]
       initial_world
       (limiter_check Demo.config "10.0.0.1" 0 initial_world).2
       _ _ _ _ _ _))))
    5 [Demo.event 1 "a"; Demo.event 2 "b"; Demo.event 3 "c"] _ _ _ _ _).
  - vm_compute. reflexivity.
  - vm_compute. reflexivity.
  - vm_compute. reflexivity.
  - vm_compute. reflexivity.
  - refine (bool_decide_unpack _ _). vm_compute. exact I.
  - vm_compute. reflexivity.
  - reflexivity.
  - vm_compute. reflexivity.
  - simpl. lia.
  - refine (bool_decide_unpack _ _). vm_compute. exact I.
  - repeat constructor.
Defined.

(** C1 as stated fails on a cell JSON cannot carry.  The table [files]
    holds one row, fewer than the limit 5, and the request passes auth,
    validation and the limiter; the row has a [bytes] cell, so building
    the response raises [TypeError] and the answer is 500, not the 200
    envelope around the row. *)
Lemma get_data_bytes_cell_no_response :
  let result := Blob.post "files" in
  RequestParams_validate Demo.pyd Demo.config
    (<["source_table" := JStr "files"]> Demo.indices) = inr (Blob.params "files")
  /\ sqlite_execute Blob.db "SELECT * FROM files LIMIT 5"
     = inr [[("id", PyInt 1); ("content", PyBytes [Byte.x00; Byte.xff])]]
  /\ executed result.2 = ["SELECT * FROM files LIMIT 5"]
  /\ result.1 = Raise (TypeError "Object of type bytes is not JSON serializable")
  /\ http_status result.1 = 500
  /\ ~ (exists resp, result.1 = Return resp /\ status_code resp = 200).
Proof.
  vm_compute. split_and!; try reflexivity. intros (resp & H & _). discriminate H.
Qed.




(** ** Failures of the store *)

(** A store error passes through [get_data]: [except HTTPException] does
    not catch it. *)
Lemma get_data_store_error responses execute params e w :
  execute (select_query params) = inl e ->
  (get_data responses execute params w).1 = Raise (SQLAlchemyError e).
Proof. intros H. by rewrite get_data_run, H. Qed.

(** C9, as the code has it: the [except HTTPException] branch of
    [get_data] is never taken.  With the SUCCESS entry present in the
    lookup, a call ends in one of three ways: it returns the 200 SUCCESS
    envelope around the fetched rows; or the store raised and its error
    leaves the handler unchanged; or the rows were fetched but the payload
    holds a value JSON cannot carry and building the response raises a
    [TypeError] or [ValueError].  No exception leaving it is an
    [HTTPException], no response it returns has status 400, and it never
    logs through [logger.exception]. *)
Theorem get_data_except_branch_dead responses execute
    (params : RequestParams) (fields : pydict) (w : world) :
  responses !! "SUCCESS" = Some fields ->
  let result := get_data responses execute params w in
  ((exists rows,
       execute (select_query params) = inr rows
       /\ json_dumps_error (PyDict (success_payload fields rows)) = None
       /\ result.1 = Return
            {| content :=
                 dict_update
                   [("data", PyList ((fun row => PyDict (py_dict row)) <$> rows))]
                   fields;
               status_code := HTTP_200_OK |})
   \/ (exists e,
         execute (select_query params) = inl e
         /\ result.1 = Raise (SQLAlchemyError e))
   \/ (exists rows e,
         execute (select_query params) = inr rows
         /\ json_dumps_error (PyDict (success_payload fields rows)) = Some e
         /\ is_render_error e = true
         /\ result.1 = Raise e))
  /\ (forall e, result.1 = Raise e -> is_HTTPException e = false)
  /\ (forall resp, result.1 = Return resp ->
        status_code resp <> HTTP_400_BAD_REQUEST)
  /\ (forall r, r ∈ log result.2 -> levelname r = ERROR -> r ∈ log w).
Proof.
  intros Hsucc result. unfold result. rewrite get_data_run, Hsucc.
  destruct (execute (select_query params)) as [e|rows]; cbv zeta.
  - split_and!.
    + right. left. by exists e.
    + by intros ? [= <-].
    + done.
    + intros r Hr Hlvl. simpl in Hr. apply elem_of_app in Hr as [Hr|Hr]; [done|].
      apply list_elem_of_singleton in Hr as ->. done.
  - unfold render.
    destruct (json_dumps_error (PyDict (success_payload fields rows)))
      as [e|] eqn:Hrender.
    + pose proof (json_dumps_error_kind _ _ Hrender) as Hkind. split_and!.
      * right. right. by exists rows, e.
      * intros ? [= <-]. by apply render_error_not_http.
      * done.
      * intros r Hr Hlvl.
        destruct (Nat.eqb (length rows) 0); simpl in Hr;
          repeat (apply elem_of_app in Hr as [Hr|Hr];
                  [|apply list_elem_of_singleton in Hr as ->; done]); done.
    + split_and!.
      * left. by exists rows.
      * done.
      * by intros ? [= <-].
      * intros r Hr Hlvl.
        destruct (Nat.eqb (length rows) 0); simpl in Hr;
          repeat (apply elem_of_app in Hr as [Hr|Hr];
                  [|apply list_elem_of_singleton in Hr as ->; done]); done.
Qed.

Lemma get_data_except_branch_dead_witness :
  exists e,
    (get_data Demo.responses (sqlite_execute Demo.db)
       {| source_table := "nope"; start_index := 0; end_index := 10;
          limit := Some 5; start_date := None; end_date := None |}
       initial_world).1 = Raise e
    /\ is_HTTPException e = false.
Proof.
  pose proof (get_data_except_branch_dead Demo.responses (sqlite_execute Demo.db)
    {| source_table := "nope"; start_index := 0; end_index := 10;
       limit := Some 5; start_date := None; end_date := None |}
    [("message", PyStr "success"); ("code", PyInt 0)] initial_world
    ltac:(vm_compute; reflexivity)) as (_ & H & _).
  eexists. split; [vm_compute; reflexivity|].
  apply H. vm_compute. reflexivity.
Defined.

(** C9 as stated leaves out a third way a call can end.  The table
    [readings] has a row with an infinite [float]; the store returns it,
    and [get_data] neither returns a response nor raises a store error:
    building the response raises [ValueError]. *)
Lemma get_data_infinite_float_third_outcome :
  let result :=
    get_data Demo.responses (sqlite_execute Blob.db) (Blob.params "readings")
      initial_world in
  sqlite_execute Blob.db (select_query (Blob.params "readings"))
    = inr [[("id", PyInt 1); ("value", PyFloat 9218868437227405312)]]
  /\ result.1
     = Raise (ValueError "Out of range float values are not JSON compliant")
  /\ ~ (exists resp, result.1 = Return resp)
  /\ ~ (exists e, result.1 = Raise (SQLAlchemyError e)).
Proof.
  vm_compute. split_and!; try reflexivity.
  - intros (resp & H). discriminate H.
  - intros (e & H). discriminate H.
Qed.

(** C4, at a failing input: a request for a table the store does not have
    makes the store raise; [get_data] does not turn that into the 400 ERROR
    envelope, the error leaves the handler and the framework answers 500. *)
Theorem get_data_missing_table_uncaught :
  let result :=
    Demo.post (<["source_table" := JStr "nope"]> Demo.indices) 0 initial_world in
  result.1 = Raise (SQLAlchemyError
                      (StoreError "OperationalError" "no such table: nope"))
  /\ http_status result.1 = 500
  /\ http_status result.1 <> HTTP_400_BAD_REQUEST.
Proof. vm_compute. split_and!; [reflexivity | reflexivity | discriminate]. Qed.

(** ** The limit bound *)

(** The part of the limit invariant the code keeps: an accepted integer
    limit is at most 1000, and a statement with a non-negative limit yields
    at most that many rows. *)
Lemma accepted_limit_bounds_fetch pyd config body params n (rows : list Row) :
  RequestParams_validate pyd config body = inr params ->
  limit params = Some n ->
  n <= 1000 /\ (0 <= n -> Z.of_nat (length (sql_limit n rows)) <= 1000).
Proof.
  intros Hval Hn. pose proof (validated_limit_le _ _ _ _ _ Hval Hn) as Hle.
  split; [done|]. intros Hge. pose proof (sql_limit_bound n rows Hge). lia.
Qed.

(** C3, at a failing input: a body with [limit = -1] passes validation (the
    field has an upper bound only), the statement ends in [LIMIT -1], which
    the store reads as no limit, and the response carries all 1001 rows of
    the table. *)
Theorem get_data_negative_limit_unbounded :
  let result :=
    post_get_data Demo.pyd Demo.config Demo.responses
      (sqlite_execute BigTable.db) (Demo.request BigTable.body 0) initial_world in
  (exists params,
     RequestParams_validate Demo.pyd Demo.config BigTable.body = inr params
     /\ limit params = Some (-1))
  /\ executed result.2 = ["SELECT * FROM events LIMIT -1"]
  /\ http_status result.1 = 200
  /\ length <$> response_rows result.1 = Some 1001%nat.
Proof.
  split; [eexists; split; vm_compute; reflexivity|].
  vm_compute. split_and!; reflexivity.
Qed.

(** ** Rejected bodies *)

Lemma limit_error_listed pyd config body e :
  validate_limit pyd body = inl e -> ("limit", e) ∈ all_errors pyd config body.
Proof.
  intros H. unfold all_errors. rewrite H. simpl.
  rewrite !elem_of_app. right; right; right; left.
Qed.

Lemma index_error_listed pyd config body name e :
  name = "start_index" \/ name = "end_index" ->
  validate_index pyd name body = inl e -> (name, e) ∈ all_errors pyd config body.
Proof.
  intros [-> | ->] H; unfold all_errors; rewrite H; simpl; rewrite !elem_of_app.
  - right; left.
  - right; right; left.
Qed.

(** A body that fails validation ends the request before the limiter and the
    handler: the world is left as it was. *)
Lemma post_get_data_rejected pyd config responses execute req name e w :
  (name, e) ∈ all_errors pyd config (body req) ->
  RequestParams_validate pyd config (body req)
    = inl (all_errors pyd config (body req))
  /\ post_get_data pyd config responses execute req w =
       (Raise (if authorized config (credentials req)
               then RequestValidationError (all_errors pyd config (body req))
               else unauthorized), w).
Proof.
  intros Hin. pose proof (RequestParams_validate_field_error _ _ _ _ _ Hin) as Hval.
  split; [done|].
  destruct (authorized config (credentials req)) eqn:Hauth.
  - by apply post_get_data_invalid.
  - by apply post_get_data_unauthorized.
Qed.

(** C5: a body whose [limit] reads as an integer above 1000 is rejected by
    validation, with the [le] error on [limit]; the request ends there (or
    already at the auth check), so no statement is built or sent to the
    store and nothing else changes either. *)
Theorem limit_above_cap_rejected pyd config responses execute
    (req : Request) (v : json) (n : Z) (w : world) :
  body req !! "limit" = Some v ->
  v <> JNull ->
  parse_int pyd v = Some n ->
  1000 < n ->
  exists errors,
    RequestParams_validate pyd config (body req) = inl errors
    /\ ("limit", less_than_equal) ∈ errors
    /\ post_get_data pyd config responses execute req w =
         (Raise (if authorized config (credentials req)
                 then RequestValidationError errors
                 else unauthorized), w)
    /\ executed (post_get_data pyd config responses execute req w).2 = executed w.
Proof.
  intros Hb Hv Hn Hlt.
  pose proof (limit_error_listed pyd config _ _
                (validate_limit_above pyd _ _ _ Hb Hv Hn Hlt)) as Hin.
  destruct (post_get_data_rejected pyd config responses execute req _ _ w Hin)
    as [Hval Hpost].
  exists (all_errors pyd config (body req)). split_and!; try done.
  by rewrite Hpost.
Qed.

Lemma limit_above_cap_rejected_witness :
  http_status (Demo.post (<["limit" := JInt 1001]> Demo.indices) 0 initial_world).1
    = 422
  /\ executed (Demo.post (<["limit" := JInt 1001]> Demo.indices) 0 initial_world).2
    = [].
Proof.
  destruct (limit_above_cap_rejected Demo.pyd Demo.config Demo.responses
              (sqlite_execute Demo.db)
              (Demo.request (<["limit" := JInt 1001]> Demo.indices) 0)
              (JInt 1001) 1001 initial_world)
    as (errors & _ & _ & Hpost & Hexec).
  - vm_compute. reflexivity.
  - discriminate.
  - reflexivity.
  - lia.
  - split; [|exact Hexec].
    unfold Demo.post. rewrite Hpost. reflexivity.
Defined.

(** C10: [start_index] and [end_index] are required and non-negative.  A
    body that omits either, or gives either an integer below zero, fails
    validation with an error on that field, so an authenticated request with
    such a body is answered 422 and reaches neither the limiter nor the
    store; and for accepted bodies the statement does not depend on the two
    fields. *)
Theorem index_fields_required_nonnegative pyd config responses execute
    (req : Request) (name : string) (w : world) :
  name = "start_index" \/ name = "end_index" ->
  body req !! name = None
  \/ (exists v n, body req !! name = Some v /\ v <> JNull
                  /\ parse_int pyd v = Some n /\ n < 0) ->
  (exists errors e,
      RequestParams_validate pyd config (body req) = inl errors
      /\ (name, e) ∈ errors
      /\ (authorized config (credentials req) = true ->
          post_get_data pyd config responses execute req w
            = (Raise (RequestValidationError errors), w)
          /\ http_status (post_get_data pyd config responses execute req w).1
            = HTTP_422_UNPROCESSABLE))
  /\ (forall p a b,
        select_query {| source_table := source_table p; start_index := a;
                        end_index := b; limit := limit p;
                        start_date := start_date p; end_date := end_date p |}
          = select_query p).
Proof.
  intros Hname Hbad. split; [|done].
  assert (exists e, validate_index pyd name (body req) = inl e) as [e He].
  { unfold validate_index.
    destruct Hbad as [-> | (v & n & -> & Hv & Hn & Hlt)]; [by eexists|].
    eexists. by apply (int_field_below pyd 0 None v n). }
  pose proof (index_error_listed pyd config _ _ _ Hname He) as Hin.
  destruct (post_get_data_rejected pyd config responses execute req _ _ w Hin)
    as [Hval Hpost].
  exists (all_errors pyd config (body req)), e. split_and!; try done.
  intros Hauth. rewrite Hpost, Hauth. done.
Qed.

Lemma index_fields_required_nonnegative_witness :
  http_status (Demo.post {[ "end_index" := JInt 10 ]} 0 initial_world).1 = 422.
Proof.
  destruct (index_fields_required_nonnegative Demo.pyd Demo.config Demo.responses
              (sqlite_execute Demo.db)
              (Demo.request {[ "end_index" := JInt 10 ]} 0)
              "start_index" initial_world)
    as [(errors & e & _ & _ & H) _].
  - left. reflexivity.
  - left. vm_compute. reflexivity.
  - apply H. vm_compute. reflexivity.
Defined.

(** ** Unused parameters *)

(** C7: two accepted [/get_data] requests that agree on [source_table] and
    [limit] (and come from the same client with the same credentials at the
    same time) run the same statement and get the same response, whatever
    their [start_index], [end_index], [start_date] and [end_date]; the
    handler does the same on both in every state. *)
Theorem pagination_and_dates_ignored pyd config responses execute
    (req1 req2 : Request) (p1 p2 : RequestParams) :
  RequestParams_validate pyd config (body req1) = inr p1 ->
  RequestParams_validate pyd config (body req2) = inr p2 ->
  source_table p1 = source_table p2 ->
  limit p1 = limit p2 ->
  client_host req1 = client_host req2 ->
  credentials req1 = credentials req2 ->
  arrival req1 = arrival req2 ->
  select_query p1 = select_query p2
  /\ (forall w, get_data responses execute p1 w = get_data responses execute p2 w)
  /\ (forall w, post_get_data pyd config responses execute req1 w
                = post_get_data pyd config responses execute req2 w).
Proof.
  intros Hv1 Hv2 Ht Hl Hc Hcr Ha.
  assert (select_query p1 = select_query p2) as Hq
    by (unfold select_query; by rewrite Ht, Hl).
  assert (forall w, get_data responses execute p1 w = get_data responses execute p2 w)
    as Hg by (intros w; by rewrite !get_data_run, Hq).
  split_and!; [done|done|]. intros w.
  destruct (authorized config (credentials req1)) eqn:Hauth.
  - rewrite (post_get_data_validated _ _ _ _ req1 p1) by done.
    rewrite (post_get_data_validated _ _ _ _ req2 p2) by (by rewrite <- ?Hcr).
    unfold bind. rewrite Hc, Ha.
    destruct (limiter_check _ _ _ w) as [[[]|e] w']; [apply Hg|done].
  - rewrite !post_get_data_unauthorized; by rewrite <- ?Hcr.
Qed.

Lemma pagination_and_dates_ignored_witness :
  Demo.post Demo.indices 0 initial_world =
  Demo.post {[ "start_index" := JInt 7; "end_index" := JInt 8;
               "start_date" := JStr "2024-01-01"; "end_date" := JStr "2024-02-01" ]}
            0 initial_world.
Proof.
  refine (proj2 (proj2
    (pagination_and_dates_ignored Demo.pyd Demo.config Demo.responses
       (sqlite_execute Demo.db)
       (Demo.request Demo.indices 0)
       (Demo.request {[ "start_index" := JInt 7; "end_index" := JInt 8;
                        "start_date" := JStr "2024-01-01";
                        "end_date" := JStr "2024-02-01" ]} 0)
       {| source_table := "events"; start_index := 0; end_index := 10;
          limit := Some 5; start_date := None; end_date := None |}
       {| source_table := "events"; start_index := 7; end_index := 8;
          limit := Some 5; start_date := Some "2024-01-01";
          end_date := Some "2024-02-01" |}
       _ _ _ _ _ _ _)) initial_world);
    try reflexivity; vm_compute; reflexivity.
Defined.

(** ** Rate limiting over a run of requests *)

Section Limiter.
Variable pyd : Pydantic.
Variable config : Config.
Variable responses : gmap string pydict.
Variable execute : string -> store_error + list Row.

Lemma hits_nonneg hist client period idx : 0 <= hits pyd config hist client period idx.
Proof.
  induction hist as [|r hist IH]; simpl; [done|].
  destruct (counted pyd config client period idx r); lia.
Qed.

Lemma hits_snoc hist r client period idx :
  hits pyd config (hist ++ [r]) client period idx =
    hits pyd config hist client period idx + (if counted pyd config client period idx r then 1 else 0).
Proof.
  induction hist as [|r' hist IH]; simpl.
  - destruct (counted pyd config client period idx r); lia.
  - fold (hits pyd config (hist ++ [r]) client period idx).
    fold (hits pyd config hist client period idx). rewrite IH.
    destruct (counted pyd config client period idx r'), (counted pyd config client period idx r); lia.
Qed.

(** A window none of the client's requests fell into holds no hits. *)
Lemma hits_fresh hist client period idx :
  (forall r, r ∈ hist -> client_host r = client -> arrival r / period <> idx) ->
  hits pyd config hist client period idx = 0.
Proof.
  induction hist as [|r hist IH]; simpl; intros H; [done|].
  fold (hits pyd config hist client period idx).
  rewrite IH by (intros r' Hr'; apply H; by right).
  unfold counted. destruct (reaches_limiter pyd config r); simpl; [|done].
  case_bool_decide as Hc; simpl; [|done].
  destruct (Z.eqb_spec (arrival r / period) idx) as [Heq|]; [|done].
  exfalso. by apply (H r); [left|..].
Qed.

Lemma serve_snoc hist req w :
  serve pyd config responses execute (hist ++ [req]) w =
    (post_get_data pyd config responses execute req
       (serve pyd config responses execute hist w)).2.
Proof. unfold serve. by rewrite fold_left_app. Qed.

(** The count a hit returns is one more than the hits pyd config of the history in
    the window of [now]. *)
Lemma window_hit_count hist client period now st :
  0 < period ->
  window_inv pyd config hist client period (st !! (client, period)) ->
  (forall r, r ∈ hist -> arrival r <= now) ->
  (window_hit (client, period) now st).1
    = hits pyd config hist client period (now / period) + 1.
Proof.
  intros Hp Hinv Hnow. unfold window_hit. simpl.
  destruct (st !! (client, period)) as [win|]; simpl in Hinv.
  - destruct Hinv as (Hcount & Hlater & r & Hr & Hidx).
    destruct (Z.eqb_spec (win_index win) (now / period)) as [Heq|Hne].
    + by rewrite Hcount, Heq.
    + rewrite Hlater; [done|].
      assert (win_index win <= now / period); [|lia].
      rewrite Hidx. apply Z.div_le_mono; [done|by apply Hnow].
  - by rewrite Hinv.
Qed.

Lemma window_inv_snoc hist req client period o :
  (forall idx, counted pyd config client period idx req = false) ->
  window_inv pyd config hist client period o ->
  window_inv pyd config (hist ++ [req]) client period o.
Proof.
  intros Hc. destruct o as [win|]; simpl.
  - intros (Hcount & Hlater & r & Hr & Hidx). split_and!.
    + by rewrite hits_snoc, Hc, Z.add_0_r.
    + intros idx Hidx'. by rewrite hits_snoc, Hc, Z.add_0_r, Hlater.
    + exists r. split; [|done]. apply elem_of_app. by left.
  - intros H idx. by rewrite hits_snoc, Hc, Z.add_0_r.
Qed.

Lemma counted_other req client period idx :
  client_host req <> client -> counted pyd config client period idx req = false.
Proof.
  intros Hne. unfold counted.
  rewrite (bool_decide_eq_false_2 _ Hne). by rewrite andb_false_r.
Qed.

Lemma counted_unreached req client period idx :
  reaches_limiter pyd config req = false -> counted pyd config client period idx req = false.
Proof. intros H. unfold counted. by rewrite H. Qed.

Lemma counted_own req period :
  reaches_limiter pyd config req = true ->
  counted pyd config (client_host req) period (arrival req / period) req = true.
Proof.
  intros H. unfold counted.
  by rewrite H, bool_decide_eq_true_2, Z.eqb_refl.
Qed.

(** The window a hit writes satisfies the invariant of the longer history. *)
Lemma window_inv_hit hist req period o :
  0 < period ->
  reaches_limiter pyd config req = true ->
  (forall r, r ∈ hist -> arrival r <= arrival req) ->
  window_inv pyd config hist (client_host req) period o ->
  window_inv pyd config (hist ++ [req]) (client_host req) period
    (Some (Window (arrival req / period)
             (hits pyd config hist (client_host req) period (arrival req / period) + 1))).
Proof.
  intros Hp Hreach Hnow Hinv. simpl. split_and!.
  - by rewrite hits_snoc, counted_own.
  - intros idx Hidx. rewrite hits_snoc.
    assert (counted pyd config (client_host req) period idx req = false) as ->.
    { unfold counted. destruct (Z.eqb_spec (arrival req / period) idx); [lia|].
      by rewrite andb_false_r. }
    rewrite Z.add_0_r. destruct o as [win|]; simpl in Hinv; [|done].
    destruct Hinv as (_ & Hlater & r & Hr & Hwin). apply Hlater.
    assert (arrival r / period <= arrival req / period); [|lia].
    apply Z.div_le_mono; [done|by apply Hnow].
  - exists req. split; [|done]. apply elem_of_app. right. by left.
Qed.

(** One check of the limiter, in terms of the history it has seen. *)
Lemma limiter_check_run hist client now w :
  limiter_inv pyd config hist (storage w) ->
  (forall r, r ∈ hist -> arrival r <= now) ->
  limiter_check config client now w =
    let n_minute := hits pyd config hist client MINUTE (now / MINUTE) + 1 in
    let n_second := hits pyd config hist client SECOND (now / SECOND) + 1 in
    (if (n_second <=? rate_per_second config)
        && (n_minute <=? rate_per_minute config)
     then Return tt else Raise RateLimitExceeded,
     {| log := log w; executed := executed w;
        storage := <[(client, SECOND) := Window (now / SECOND) n_second]>
                     (<[(client, MINUTE) := Window (now / MINUTE) n_minute]>
                        (storage w)) |}).
Proof.
  intros Hinv Hnow.
  pose proof (window_hit_count hist client MINUTE now (storage w) eq_refl
                (Hinv client MINUTE (or_intror eq_refl)) Hnow) as Hmin.
  set (st1 := <[(client, MINUTE) :=
                 Window (now / MINUTE) (hits pyd config hist client MINUTE (now / MINUTE) + 1)]>
                (storage w)).
  assert (window_inv pyd config hist client SECOND (st1 !! (client, SECOND))) as Hinv1.
  { unfold st1. rewrite lookup_insert_ne by (intros [= ?]; done).
    apply Hinv. by left. }
  pose proof (window_hit_count hist client SECOND now st1 eq_refl Hinv1 Hnow)
    as Hsec.
  assert (forall c p st,
            window_hit (c, p) now st =
              ((window_hit (c, p) now st).1,
               <[(c, p) := Window (now / p) (window_hit (c, p) now st).1]> st))
    as Hpair by done.
  unfold limiter_check.
  rewrite (Hpair client MINUTE (storage w)), Hmin. cbv beta iota. fold st1.
  rewrite (Hpair client SECOND st1), Hsec. cbv beta iota zeta.
  by destruct (_ && _).
Qed.

Lemma limiter_inv_hit hist req st :
  reaches_limiter pyd config req = true ->
  (forall r, r ∈ hist -> arrival r <= arrival req) ->
  limiter_inv pyd config hist st ->
  limiter_inv pyd config (hist ++ [req])
    (<[(client_host req, SECOND) :=
         Window (arrival req / SECOND)
           (hits pyd config hist (client_host req) SECOND (arrival req / SECOND) + 1)]>
       (<[(client_host req, MINUTE) :=
            Window (arrival req / MINUTE)
              (hits pyd config hist (client_host req) MINUTE (arrival req / MINUTE) + 1)]>
          st)).
Proof.
  intros Hreach Hnow Hinv client period Hperiod.
  destruct (decide (client = client_host req)) as [->|Hne].
  - destruct Hperiod as [-> | ->].
    + rewrite lookup_insert_eq.
      by apply (window_inv_hit _ _ _ (st !! (client_host req, SECOND))); auto.
    + rewrite lookup_insert_ne by (intros [= ?]; done).
      rewrite lookup_insert_eq.
      by apply (window_inv_hit _ _ _ (st !! (client_host req, MINUTE))); auto.
  - rewrite !lookup_insert_ne by (intros [= ? ?]; done).
    apply window_inv_snoc; [|by apply Hinv].
    intros idx. apply counted_other. congruence.
Qed.

Lemma reaches_limiter_true req :
  reaches_limiter pyd config req = true ->
  authorized config (credentials req) = true
  /\ exists params, RequestParams_validate pyd config (body req) = inr params.
Proof.
  unfold reaches_limiter. intros [Ha Hv]%andb_true_iff. split; [done|].
  destruct (RequestParams_validate pyd config (body req)); [done|by eexists].
Qed.

Lemma reaches_limiter_false req w :
  reaches_limiter pyd config req = false ->
  exists e, post_get_data pyd config responses execute req w = (Raise e, w).
Proof.
  unfold reaches_limiter. intros H.
  destruct (authorized config (credentials req)) eqn:Hauth.
  - destruct (RequestParams_validate pyd config (body req)) as [errs|] eqn:Hv;
      [|done].
    eexists. by apply post_get_data_invalid.
  - eexists. by apply post_get_data_unauthorized.
Qed.

(** The storage after serving a chronological history describes it. *)
Lemma serve_limiter_inv hist :
  chronological hist ->
  limiter_inv pyd config hist
    (storage (serve pyd config responses execute hist initial_world)).
Proof.
  induction hist as [|req hist IH] using rev_ind; intros Hsorted.
  - intros client period _. simpl. by rewrite lookup_empty.
  - pose proof (StronglySorted_app_1_l _ _ _ Hsorted) as Hhist.
    assert (forall r, r ∈ hist -> arrival r <= arrival req) as Hnow.
    { intros r Hr.
      apply (StronglySorted_app_1_elem_of _ hist [req] r req Hsorted Hr).
      by left. }
    specialize (IH Hhist). rewrite serve_snoc.
    set (w := serve pyd config responses execute hist initial_world) in *.
    destruct (reaches_limiter pyd config req) eqn:Hreach.
    + destruct (reaches_limiter_true req Hreach) as [Hauth [params Hval]].
      rewrite (post_get_data_validated _ _ _ _ _ params) by done.
      unfold bind. rewrite (limiter_check_run hist) by done. cbv zeta.
      destruct (_ && _).
      * rewrite get_data_storage. simpl. by apply limiter_inv_hit.
      * simpl. by apply limiter_inv_hit.
    + destruct (reaches_limiter_false req w Hreach) as [e ->]. simpl.
      intros client period Hperiod. apply window_inv_snoc; [|by apply IH].
      intros idx. by apply counted_unreached.
Qed.

(** A request that reaches the limiter after a chronological history is
    handled pyd config responses execute or rejected according to the hits pyd config in its two windows. *)
Lemma limited_request_run hist req params :
  chronological (hist ++ [req]) ->
  authorized config (credentials req) = true ->
  RequestParams_validate pyd config (body req) = inr params ->
  let w := serve pyd config responses execute hist initial_world in
  let n_second := hits pyd config hist (client_host req) SECOND (arrival req / SECOND) in
  let n_minute := hits pyd config hist (client_host req) MINUTE (arrival req / MINUTE) in
  if (n_second <? rate_per_second config) && (n_minute <? rate_per_minute config)
  then handled pyd config responses execute req params w
  else exists w1,
      post_get_data pyd config responses execute req w = (Raise RateLimitExceeded, w1)
      /\ executed w1 = executed w.
Proof.
  intros Hsorted Hauth Hval w n_second n_minute.
  pose proof (serve_limiter_inv hist (StronglySorted_app_1_l _ _ _ Hsorted))
    as Hinv. fold w in Hinv.
  assert (forall r, r ∈ hist -> arrival r <= arrival req) as Hnow.
  { intros r Hr.
    apply (StronglySorted_app_1_elem_of _ hist [req] r req Hsorted Hr).
    by left. }
  pose proof (limiter_check_run hist (client_host req) (arrival req) w Hinv Hnow)
    as Hrun. cbv zeta in Hrun. fold n_second n_minute in Hrun.
  assert ((n_second + 1 <=? rate_per_second config)
          && (n_minute + 1 <=? rate_per_minute config)
          = (n_second <? rate_per_second config)
            && (n_minute <? rate_per_minute config)) as Hcond.
  { f_equal; apply eq_true_iff_eq; rewrite Z.leb_le, Z.ltb_lt; lia. }
  rewrite Hcond in Hrun.
  destruct ((n_second <? rate_per_second config)
            && (n_minute <? rate_per_minute config)).
  - simpl in Hrun. unfold handled. eexists. split; [exact Hrun|].
    rewrite (post_get_data_validated _ _ _ _ _ params) by done.
    unfold bind. rewrite Hrun. split; [done|].
    by rewrite get_data_executed.
  - simpl in Hrun. eexists. split.
    + rewrite (post_get_data_validated _ _ _ _ _ params) by done.
      unfold bind. rewrite Hrun. reflexivity.
    + reflexivity.
Qed.

Lemma same_second_same_minute (a b : Z) :
  a / SECOND = b / SECOND -> a / MINUTE = b / MINUTE.
Proof.
  intros H. change MINUTE with (SECOND * 60).
  rewrite <- !Z.div_div by done. by rewrite H.
Qed.
End Limiter.

(** C8, as the code has it: the limiter counts the requests that reach
    it, which are those that passed auth and validation.  In a run of
    requests served in order of arrival, a request of a client that already
    has as many counted requests in its current one-second window as the
    per-second threshold allows, or in its current one-minute window as the
    per-minute threshold allows, is rejected: it raises, nothing is sent to
    the store, and if it got past auth and validation the rejection is the
    limiter's.  A request below both counts passes the limiter and the
    handler runs.  Windows are fixed: once the client's earlier requests all
    lie in earlier one-second windows, the per-second count starts again,
    and once they all lie in earlier one-minute windows both counts do, so
    the request is handled. *)
Theorem rate_limit_fixed_windows pyd config responses execute
    (hist : list Request) (req : Request) :
  chronological (hist ++ [req]) ->
  let w := serve pyd config responses execute hist initial_world in
  let result := post_get_data pyd config responses execute req w in
  let n_second :=
    hits pyd config hist (client_host req) SECOND (arrival req / SECOND) in
  let n_minute :=
    hits pyd config hist (client_host req) MINUTE (arrival req / MINUTE) in
  (rate_per_second config <= n_second \/ rate_per_minute config <= n_minute ->
     (exists e, result.1 = Raise e)
     /\ executed result.2 = executed w
     /\ (reaches_limiter pyd config req = true ->
         result.1 = Raise RateLimitExceeded))
  /\ (forall params,
        authorized config (credentials req) = true ->
        RequestParams_validate pyd config (body req) = inr params ->
        (n_second < rate_per_second config ->
         n_minute < rate_per_minute config ->
         handled pyd config responses execute req params w)
        /\ (1 <= rate_per_second config ->
            n_minute < rate_per_minute config ->
            (forall r, r ∈ hist -> client_host r = client_host req ->
                       arrival r / SECOND < arrival req / SECOND) ->
            handled pyd config responses execute req params w)
        /\ (1 <= rate_per_second config ->
            1 <= rate_per_minute config ->
            (forall r, r ∈ hist -> client_host r = client_host req ->
                       arrival r / MINUTE < arrival req / MINUTE) ->
            handled pyd config responses execute req params w)).
Proof.
  intros Hsorted w result n_second n_minute.
  assert (forall params,
            authorized config (credentials req) = true ->
            RequestParams_validate pyd config (body req) = inr params ->
            n_second < rate_per_second config ->
            n_minute < rate_per_minute config ->
            handled pyd config responses execute req params w) as Hbelow.
  { intros params Hauth Hval Hs Hm.
    pose proof (limited_request_run pyd config responses execute hist req params
                  Hsorted Hauth Hval) as Hrun.
    cbv zeta in Hrun. fold w n_second n_minute in Hrun.
    destruct (Z.ltb_spec n_second (rate_per_second config)); [|lia].
    by destruct (Z.ltb_spec n_minute (rate_per_minute config)); [|lia]. }
  split.
  - intros Hover. destruct (reaches_limiter pyd config req) eqn:Hreach.
    + destruct (reaches_limiter_true _ _ _ Hreach) as [Hauth [params Hval]].
      pose proof (limited_request_run pyd config responses execute hist req params
                    Hsorted Hauth Hval) as Hrun.
      cbv zeta in Hrun. fold w n_second n_minute in Hrun.
      assert ((n_second <? rate_per_second config)
              && (n_minute <? rate_per_minute config) = false) as Hcond.
      { apply andb_false_iff. rewrite !Z.ltb_ge. tauto. }
      rewrite Hcond in Hrun. destruct Hrun as (w1 & Hres & Hexec).
      unfold result. rewrite Hres. simpl. split_and!; [by eexists|done|done].
    + destruct (reaches_limiter_false pyd config responses execute req w Hreach)
        as [e He].
      unfold result. rewrite He. simpl. split_and!; [by eexists|done|done].
  - intros params Hauth Hval. split_and!.
    + by apply Hbelow.
    + intros Hrate Hm Hreset. apply Hbelow; [done|done| |done].
      unfold n_second. rewrite hits_fresh; [lia|].
      intros r Hr Hc. specialize (Hreset r Hr Hc). lia.
    + intros Hs Hm Hreset. apply Hbelow; [done|done| |].
      * unfold n_second. rewrite hits_fresh; [lia|].
        intros r Hr Hc Heq. specialize (Hreset r Hr Hc).
        apply same_second_same_minute in Heq. lia.
      * unfold n_minute. rewrite hits_fresh; [lia|].
        intros r Hr Hc. specialize (Hreset r Hr Hc). lia.
Qed.

Lemma rate_limit_fixed_windows_witness :
  (Demo.post Demo.indices 2
     (serve Demo.pyd Demo.config Demo.responses (sqlite_execute Demo.db)
        [Demo.request Demo.indices 0; Demo.request Demo.indices 1]
        initial_world)).1
  = Raise RateLimitExceeded.
Proof.
  destruct (rate_limit_fixed_windows Demo.pyd Demo.config Demo.responses
              (sqlite_execute Demo.db)
              [Demo.request Demo.indices 0; Demo.request Demo.indices 1]
              (Demo.request Demo.indices 2)) as [Hover _].
  - unfold chronological. repeat (constructor; simpl; try lia).
  - destruct Hover as (_ & _ & H).
    + left. vm_compute. discriminate.
    + apply H. vm_compute. reflexivity.
Defined.

(** C8 as stated counts every request of the client.  Here one client
    sends four requests within one second against a threshold of two per
    second; the first three have a body that fails validation, so they
    never reach the limiter, and the fourth, although the client's requests
    in the window already exceed the threshold, is handled: the statement
    runs and the answer is 200. *)
Lemma burst_after_invalid_bodies_handled :
  let w :=
    serve Demo.pyd Demo.config Demo.responses (sqlite_execute Demo.db)
      Bursts.earlier initial_world in
  let result :=
    post_get_data Demo.pyd Demo.config Demo.responses (sqlite_execute Demo.db)
      Bursts.fourth w in
  length Bursts.earlier = 3%nat
  /\ Forall (fun r => client_host r = client_host Bursts.fourth
                      /\ arrival r / SECOND = arrival Bursts.fourth / SECOND)
            Bursts.earlier
  /\ rate_per_second Demo.config = 2
  /\ RequestParams_validate Demo.pyd Demo.config Bursts.invalid_body
     = inl [("start_index", missing)]
  /\ http_status result.1 = 200
  /\ executed result.2 = ["SELECT * FROM events LIMIT 5"].
Proof.
  split_and!; try (vm_compute; reflexivity).
  repeat constructor.
Qed.

(** * Further properties of the endpoints *)

(** ** Python dicts: lookup after update *)

Lemma dict_get_set k k' v (d : pydict) :
  dict_get k (dict_set k' v d) =
    if String.eqb k k' then Some v else dict_get k d.
Proof.
  induction d as [|[k0 v0] d IH]; simpl.
  - done.
  - destruct (String.eqb_spec k' k0) as [->|Hne]; simpl.
    + by destruct (String.eqb k k0).
    + destruct (String.eqb_spec k k0) as [->|Hne'].
      * destruct (String.eqb_spec k0 k') as [<-|_]; done.
      * done.
Qed.

Lemma dict_get_update k (d items : pydict) :
  NoDup items.*1 ->
  dict_get k (dict_update d items) =
    match dict_get k items with
    | Some v => Some v
    | None => dict_get k d
    end.
Proof.
  unfold dict_update. revert d.
  induction items as [|[k0 v0] items IH]; simpl; intros d Hnd; [done|].
  apply NoDup_cons in Hnd as [Hk0 Hnd]. rewrite IH by done.
  rewrite dict_get_set. simpl.
  destruct (String.eqb_spec k k0) as [->|Hne]; [|done].
  assert (dict_get k0 items = None) as ->; [|done].
  clear -Hk0. induction items as [|[k1 v1] items IH]; simpl; [done|].
  simpl in Hk0. apply not_elem_of_cons in Hk0 as [Hne Hk0].
  destruct (String.eqb_spec k0 k1); [done|by apply IH].
Qed.

Lemma dict_get_elem k v (d : pydict) :
  NoDup d.*1 -> (k, v) ∈ d -> dict_get k d = Some v.
Proof.
  induction d as [|[k0 v0] d IH]; simpl; intros Hnd Hin.
  - by apply elem_of_nil in Hin.
  - apply NoDup_cons in Hnd as [Hk0 Hnd].
    apply elem_of_cons in Hin as [[= <- <-]|Hin].
    + by rewrite String.eqb_refl.
    + destruct (String.eqb_spec k k0) as [->|_]; [|by apply IH].
      exfalso. apply Hk0. apply list_elem_of_fmap. by exists (k0, v).
Qed.

Lemma dict_get_absent k (d : pydict) : k ∉ d.*1 -> dict_get k d = None.
Proof.
  induction d as [|[k0 v0] d IH]; simpl; intros Hk; [done|].
  apply not_elem_of_cons in Hk as [Hne Hk].
  destruct (String.eqb_spec k k0); [done|by apply IH].
Qed.

(** ** Which errors validation reports *)

Lemma field_errors_elem {A} (name n : string) (r : error_kind + A) e :
  (n, e) ∈ field_errors name r <-> n = name /\ r = inl e.
Proof.
  destruct r as [e'|a]; simpl.
  - rewrite list_elem_of_singleton. split; [by intros [= -> ->]|by intros [-> [= ->]]].
  - split; [by intros H%elem_of_nil|by intros [_ ?]].
Qed.

Lemma all_errors_elem pyd config (body : gmap string json) n e :
  (n, e) ∈ all_errors pyd config body <->
    (n = "source_table" /\ validate_source_table pyd config body = inl e)
    \/ (n = "start_index" /\ validate_index pyd "start_index" body = inl e)
    \/ (n = "end_index" /\ validate_index pyd "end_index" body = inl e)
    \/ (n = "limit" /\ validate_limit pyd body = inl e)
    \/ (n = "start_date" /\ validate_date pyd "start_date" body = inl e)
    \/ (n = "end_date" /\ validate_date pyd "end_date" body = inl e).
Proof. unfold all_errors. by rewrite !elem_of_app, !field_errors_elem. Qed.

(** ** Authentication in front of [/get_data] *)

(** X1: a [POST /get_data] request whose credential pair is not the
    configured admin pair ends at the auth dependency: it raises the 401
    error with the challenge header, whatever its body, and the world is
    left as it was, so it is neither counted by the limiter nor seen by
    the store. *)
Theorem unauthorized_request_untouched pyd config responses execute
    (req : Request) (w : world) :
  ~ (username (credentials req) = users_username config
     /\ password (credentials req) = users_password config) ->
  post_get_data pyd config responses execute req w =
    (Raise (HTTPException HTTP_401_UNAUTHORIZED "Incorrect username or password"
              [("WWW-Authenticate", "Basic")]), w).
Proof.
  intros Hbad. apply post_get_data_unauthorized. unfold authorized.
  apply andb_false_iff.
  destruct (decide (username (credentials req) = users_username config)) as [Hu|Hu].
  - right. apply bool_decide_eq_false_2. tauto.
  - left. by apply bool_decide_eq_false_2.
Qed.

Lemma unauthorized_request_untouched_witness :
  post_get_data Demo.pyd Demo.config Demo.responses (sqlite_execute Demo.db)
    {| client_host := "10.0.0.9";
       credentials := {| username := "admin"; password := "guess" |};
       body := Demo.indices; arrival := 0 |} initial_world
  = (Raise unauthorized, initial_world).
Proof.
  apply (unauthorized_request_untouched Demo.pyd Demo.config Demo.responses
           (sqlite_execute Demo.db)).
  simpl. intros [_ H]. discriminate H.
Defined.

(** ** What validation accepts *)

(** X2: a body that gives only [start_index] and [end_index], as
    non-negative integers in any order of size, is accepted with the
    defaults for the rest: the configured table, limit 5 and no dates; its
    statement is [SELECT * FROM <table_name> LIMIT 5]. *)
Theorem defaults_applied pyd config (body : gmap string json)
    (va vb : json) (a b : Z) :
  body !! "start_index" = Some va -> va <> JNull ->
  parse_int pyd va = Some a -> 0 <= a ->
  body !! "end_index" = Some vb -> vb <> JNull ->
  parse_int pyd vb = Some b -> 0 <= b ->
  body !! "source_table" = None ->
  body !! "limit" = None ->
  body !! "start_date" = None ->
  body !! "end_date" = None ->
  RequestParams_validate pyd config body =
    inr {| source_table := table_name config; start_index := a;
           end_index := b; limit := Some 5;
           start_date := None; end_date := None |}
  /\ select_query {| source_table := table_name config; start_index := a;
                     end_index := b; limit := Some 5;
                     start_date := None; end_date := None |}
     = "SELECT * FROM " +:+ table_name config +:+ " LIMIT 5".
Proof.
  intros Ha Hva Hpa Hge_a Hb Hvb Hpb Hge_b Ht Hl Hsd Hed. split; [|done].
  assert (forall v n, v <> JNull -> parse_int pyd v = Some n -> 0 <= n ->
            int_field pyd (Some 0) None v = inr n) as Hint.
  { intros v n Hv Hn Hge. unfold int_field.
    destruct v; try done; rewrite Hn; by destruct (Z.ltb_spec n 0); [lia|]. }
  unfold RequestParams_validate, validate_source_table, validate_index,
    validate_limit, validate_date.
  rewrite Ha, Hb, Ht, Hl, Hsd, Hed.
  by rewrite (Hint va a), (Hint vb b).
Qed.

Lemma defaults_applied_witness :
  RequestParams_validate Demo.pyd Demo.config
    {[ "start_index" := JInt 9; "end_index" := JInt 2 ]}
  = inr {| source_table := "events"; start_index := 9; end_index := 2;
           limit := Some 5; start_date := None; end_date := None |}.
Proof.
  refine (proj1 (defaults_applied Demo.pyd Demo.config
                   {[ "start_index" := JInt 9; "end_index" := JInt 2 ]}
                   (JInt 9) (JInt 2) 9 2 _ _ _ _ _ _ _ _ _ _ _ _));
    try (vm_compute; reflexivity); try discriminate; lia.
Defined.

(** X3: [limit] is optional in the sense of [Optional[int]]: a body with
    [limit: null] gets no error on that field, and when the body is
    accepted its limit is [None] and the statement text ends in
    [LIMIT None]. *)
Theorem null_limit_prints_None pyd config (body : gmap string json) :
  body !! "limit" = Some JNull ->
  (forall e, ("limit", e) ∉ all_errors pyd config body)
  /\ (forall p,
        RequestParams_validate pyd config body = inr p ->
        limit p = None
        /\ select_query p = "SELECT * FROM " +:+ source_table p +:+ " LIMIT None").
Proof.
  intros Hl.
  assert (validate_limit pyd body = inr None) as Hv
    by (unfold validate_limit; by rewrite Hl).
  split.
  - intros e He. apply all_errors_elem in He.
    destruct He as [[? _]|[[? _]|[[? _]|[[_ He]|[[? _]|[? _]]]]]]; try discriminate.
    by rewrite Hv in He.
  - intros p Hp. apply RequestParams_validate_inr in Hp as (_ & _ & _ & Hp & _).
    rewrite Hv in Hp. injection Hp as Hp. unfold select_query. by rewrite <- Hp.
Qed.

Lemma null_limit_prints_None_witness :
  executed (Demo.post (<["limit" := JNull]> Demo.indices) 0 initial_world).2
  = ["SELECT * FROM events LIMIT None"].
Proof.
  pose proof (null_limit_prints_None Demo.pyd Demo.config
                (<["limit" := JNull]> Demo.indices)) as H.
  destruct H as [_ H]; [vm_compute; reflexivity|].
  destruct (H {| source_table := "events"; start_index := 0; end_index := 10;
                 limit := None; start_date := None; end_date := None |})
    as [_ Hq]; [vm_compute; reflexivity|].
  vm_compute. reflexivity.
Defined.

(** X4: every accepted body gives parameters in range: both indices were
    supplied and are at least 0, and the limit, when it is an integer, is at
    most 1000; there is no lower bound on the limit and no relation between
    the two indices. *)
Theorem validated_params_in_range pyd config (body : gmap string json)
    (p : RequestParams) :
  RequestParams_validate pyd config body = inr p ->
  0 <= start_index p
  /\ 0 <= end_index p
  /\ is_Some (body !! "start_index")
  /\ is_Some (body !! "end_index")
  /\ (forall n, limit p = Some n -> n <= 1000).
Proof.
  intros Hp.
  pose proof (RequestParams_validate_inr _ _ _ _ Hp) as (_ & Hs & He & Hl & _).
  apply validate_index_inr in Hs as [Hs (vs & Hvs & _)].
  apply validate_index_inr in He as [He (ve & Hve & _)].
  split_and!; [done|done|by eexists|by eexists|].
  intros n Hn. rewrite Hn in Hl. by apply validate_limit_le in Hl.
Qed.

Lemma validated_params_in_range_witness :
  0 <= 7 /\ 0 <= 3 /\ (-4) <= 1000.
Proof.
  destruct (validated_params_in_range Demo.pyd Demo.config
              {[ "start_index" := JInt 7; "end_index" := JInt 3;
                 "limit" := JInt (-4) ]}
              {| source_table := "events"; start_index := 7; end_index := 3;
                 limit := Some (-4); start_date := None; end_date := None |})
    as (Hs & He & _ & _ & Hl).
  - vm_compute. reflexivity.
  - split_and!; [exact Hs | exact He | exact (Hl (-4) eq_refl)].
Defined.

(** X5: the table name is taken as given.  Whatever string the body's
    [source_table] reads as, the field gets no error; an accepted body
    carries that string unchanged, and a request that passes the limiter
    sends the statement with the string spliced in between
    [SELECT * FROM] and [LIMIT]. *)
Theorem source_table_verbatim pyd config responses execute
    (req : Request) (v : json) (s : string) :
  body req !! "source_table" = Some v ->
  v <> JNull ->
  parse_str pyd v = Some s ->
  (forall e, ("source_table", e) ∉ all_errors pyd config (body req))
  /\ (forall p,
        RequestParams_validate pyd config (body req) = inr p ->
        source_table p = s
        /\ (forall w w1,
              authorized config (credentials req) = true ->
              limiter_check config (client_host req) (arrival req) w
                = (Return tt, w1) ->
              executed (post_get_data pyd config responses execute req w).2
                = executed w ++ ["SELECT * FROM " +:+ s +:+ " LIMIT "
                                   +:+ format_optional_int (limit p)])).
Proof.
  intros Hb Hv Hs.
  assert (validate_source_table pyd config (body req) = inr s) as Hval.
  { unfold validate_source_table, str_field. rewrite Hb.
    destruct v; try done; by rewrite Hs. }
  split.
  - intros e He. apply all_errors_elem in He.
    destruct He as [[_ He]|[[? _]|[[? _]|[[? _]|[[? _]|[? _]]]]]]; try discriminate.
    by rewrite Hval in He.
  - intros p Hp.
    pose proof (RequestParams_validate_inr _ _ _ _ Hp) as (Ht & _).
    rewrite Hval in Ht. injection Ht as Ht. split; [done|].
    intros w w1 Hauth Hlim.
    rewrite (post_get_data_validated _ _ _ _ _ p) by done.
    unfold bind. rewrite Hlim, get_data_executed.
    apply limiter_check_frame in Hlim as [_ ->].
    unfold select_query. by rewrite <- Ht.
Qed.

Lemma source_table_verbatim_witness :
  executed
    (Demo.post (<["source_table" := JStr "events; DROP TABLE events"]> Demo.indices)
       0 initial_world).2
  = ["SELECT * FROM events; DROP TABLE events LIMIT 5"].
Proof.
  destruct (source_table_verbatim Demo.pyd Demo.config Demo.responses
              (sqlite_execute Demo.db)
              (Demo.request
                 (<["source_table" := JStr "events; DROP TABLE events"]> Demo.indices) 0)
              (JStr "events; DROP TABLE events") "events; DROP TABLE events")
    as [_ H].
  - vm_compute. reflexivity.
  - discriminate.
  - reflexivity.
  - destruct (H {| source_table := "events; DROP TABLE events"; start_index := 0;
                   end_index := 10; limit := Some 5;
                   start_date := None; end_date := None |})
      as [_ Hexec]; [vm_compute; reflexivity|].
    apply (Hexec initial_world
             (limiter_check Demo.config "10.0.0.1" 0 initial_world).2);
      vm_compute; reflexivity.
Defined.

(** X6: keys of the body that are not fields of [RequestParams] are
    ignored: adding one changes neither the verdict nor the parameters. *)
Theorem unknown_fields_ignored pyd config (body : gmap string json)
    (k : string) (v : json) :
  k ∉ ["source_table"; "start_index"; "end_index"; "limit";
       "start_date"; "end_date"] ->
  RequestParams_validate pyd config (<[k := v]> body)
    = RequestParams_validate pyd config body.
Proof.
  intros Hk. rewrite !not_elem_of_cons in Hk.
  destruct Hk as (H1 & H2 & H3 & H4 & H5 & H6 & _).
  unfold RequestParams_validate, validate_source_table, validate_index,
    validate_limit, validate_date.
  by rewrite !lookup_insert_ne by done.
Qed.

Lemma unknown_fields_ignored_witness :
  RequestParams_validate Demo.pyd Demo.config
    (<["page" := JInt 3]> Demo.indices)
  = RequestParams_validate Demo.pyd Demo.config Demo.indices.
Proof.
  apply (unknown_fields_ignored Demo.pyd Demo.config Demo.indices "page" (JInt 3)).
  refine (bool_decide_unpack _ _). vm_compute. exact I.
Defined.

(** X7: a rejected body is reported with at least one error; every error
    names one of the six fields of [RequestParams]; and only the two
    fields without a default, [start_index] and [end_index], can be
    reported as missing. *)
Theorem validation_errors_name_fields pyd config (body : gmap string json)
    (errors : list (string * error_kind)) :
  RequestParams_validate pyd config body = inl errors ->
  errors <> []
  /\ (forall n e, (n, e) ∈ errors ->
        n ∈ ["source_table"; "start_index"; "end_index"; "limit";
             "start_date"; "end_date"]
        /\ (e = missing ->
            (n = "start_index" \/ n = "end_index") /\ body !! n = None)).
Proof.
  intros Hval.
  destruct (RequestParams_validate_cases pyd config body)
    as [(p & Hp & _)|[He Hne]]; [by rewrite Hval in Hp|].
  rewrite Hval in He. injection He as ->. split; [done|].
  assert (forall v, int_field pyd (Some 0) None v <> inl missing) as Hint.
  { intros v. unfold int_field.
    destruct v; try done; destruct (parse_int pyd _); try done;
      by repeat case_match. }
  assert (forall name, validate_index pyd name body = inl missing ->
            body !! name = None) as Hidx.
  { intros name. unfold validate_index.
    destruct (body !! name) as [v|]; [|done]. intros H. by apply Hint in H. }
  intros n e Hin. apply all_errors_elem in Hin.
  destruct Hin as [[-> H]|[[-> H]|[[-> H]|[[-> H]|[[-> H]|[-> H]]]]]];
    (split; [set_solver|intros ->]).
  - exfalso. unfold validate_source_table, str_field in H.
    repeat case_match; simplify_eq.
  - split; [by left|by apply Hidx].
  - split; [by right|by apply Hidx].
  - exfalso. unfold validate_limit, int_field in H.
    repeat case_match; simplify_eq.
  - exfalso. unfold validate_date, str_field in H.
    repeat case_match; simplify_eq.
  - exfalso. unfold validate_date, str_field in H.
    repeat case_match; simplify_eq.
Qed.

Lemma validation_errors_name_fields_witness :
  RequestParams_validate Demo.pyd Demo.config {[ "limit" := JInt 2000 ]}
  = inl [("start_index", missing); ("end_index", missing);
         ("limit", less_than_equal)]
  /\ [("start_index", missing); ("end_index", missing);
      ("limit", less_than_equal)] <> [].
Proof.
  split; [vm_compute; reflexivity|].
  apply (validation_errors_name_fields Demo.pyd Demo.config
           {[ "limit" := JInt 2000 ]}).
  vm_compute. reflexivity.
Defined.

(** ** Effects of the handler *)

Lemma get_data_log responses execute (params : RequestParams) (w : world) :
  log (get_data responses execute params w).2 =
    log w ++ fetching ::
      match execute (select_query params) with
      | inr [] => [no_records]
      | _ => []
      end.
Proof.
  rewrite get_data_run.
  destruct (execute (select_query params)) as [e|[|row rows]]; simpl;
    [done|..]; destruct (responses !! "SUCCESS"); simpl;
    by rewrite <- ?app_assoc.
Qed.

(** X8: whatever the store answers, one call of [get_data] hands exactly
    one statement to the store, leaves the limiter's storage alone, and
    extends the log by the INFO record, followed by the warning exactly
    when the store returned an empty list of rows. *)
Theorem get_data_effects responses execute (params : RequestParams) (w : world) :
  let w' := (get_data responses execute params w).2 in
  executed w' = executed w ++ [select_query params]
  /\ storage w' = storage w
  /\ log w' =
       log w ++ LogRecord INFO "fetching records from the database..."
         :: match execute (select_query params) with
            | inr [] => [LogRecord WARNING "no records returned"]
            | _ => []
            end.
Proof.
  cbv zeta. split_and!.
  - apply get_data_executed.
  - apply get_data_storage.
  - apply get_data_log.
Qed.

(** X9: the SUCCESS fields come from a lookup that may miss.  When the
    lookup has no SUCCESS entry and the store returns rows, unpacking the
    missing entry raises a [TypeError] after the statement has run; it is
    not an [HTTPException], so it leaves the handler and the answer is 500,
    whether or not an ERROR entry exists. *)
Theorem missing_success_entry_raises responses execute
    (params : RequestParams) (rows : list Row) (w : world) :
  responses !! "SUCCESS" = None ->
  execute (select_query params) = inr rows ->
  let result := get_data responses execute params w in
  result.1 = Raise (TypeError "'NoneType' object is not a mapping")
  /\ http_status result.1 = 500
  /\ executed result.2 = executed w ++ [select_query params].
Proof.
  intros Hs Hq result. unfold result. rewrite get_data_run, Hq, Hs.
  by destruct (Nat.eqb (length rows) 0).
Qed.

Lemma missing_success_entry_raises_witness :
  http_status
    (get_data {[ "ERROR" := [("message", PyStr "error")] ]}
       (sqlite_execute Demo.db)
       {| source_table := "events"; start_index := 0; end_index := 10;
          limit := Some 5; start_date := None; end_date := None |}
       initial_world).1 = 500.
Proof.
  refine (proj1 (proj2
    (missing_success_entry_raises {[ "ERROR" := [("message", PyStr "error")] ]}
       (sqlite_execute Demo.db)
       {| source_table := "events"; start_index := 0; end_index := 10;
          limit := Some 5; start_date := None; end_date := None |}
       [Demo.event 1 "a"; Demo.event 2 "b"; Demo.event 3 "c"]
       initial_world _ _))); vm_compute; reflexivity.
Defined.

(** X10: the payload is [{"data": data, **fields}], so the SUCCESS fields
    win: every field of the entry is in the payload with its own value,
    also a field named [data], which then replaces the rows; the rows are
    under [data] exactly when the entry has no such field.  The call
    answers 200 with that payload when JSON can carry it, and raises the
    rendering error otherwise. *)
Theorem envelope_fields_win responses execute (params : RequestParams)
    (fields : pydict) (rows : list Row) (w : world) :
  responses !! "SUCCESS" = Some fields ->
  NoDup fields.*1 ->
  execute (select_query params) = inr rows ->
  let payload := success_payload fields rows in
  (forall k v, (k, v) ∈ fields -> dict_get k payload = Some v)
  /\ ("data" ∉ fields.*1 ->
      dict_get "data" payload
        = Some (PyList ((fun row => PyDict (py_dict row)) <$> rows)))
  /\ (get_data responses execute params w).1 =
       match json_dumps_error (PyDict payload) with
       | Some e => Raise e
       | None => Return {| content := payload; status_code := HTTP_200_OK |}
       end.
Proof.
  intros Hs Hnd Hq payload. split_and!.
  - intros k v Hin. unfold payload, success_payload.
    rewrite dict_get_update by done. by rewrite (dict_get_elem k v fields).
  - intros Hfresh. unfold payload, success_payload.
    rewrite dict_get_update by done. by rewrite dict_get_absent.
  - by rewrite get_data_run, Hq, Hs.
Qed.

Lemma envelope_fields_win_witness :
  response_rows
    (get_data {[ "SUCCESS" := [("data", PyList []); ("code", PyInt 0)] ]}
       (sqlite_execute Demo.db)
       {| source_table := "events"; start_index := 0; end_index := 10;
          limit := Some 5; start_date := None; end_date := None |}
       initial_world).1 = Some [].
Proof.
  destruct (envelope_fields_win
              {[ "SUCCESS" := [("data", PyList []); ("code", PyInt 0)] ]}
              (sqlite_execute Demo.db)
              {| source_table := "events"; start_index := 0; end_index := 10;
                 limit := Some 5; start_date := None; end_date := None |}
              [("data", PyList []); ("code", PyInt 0)]
              [Demo.event 1 "a"; Demo.event 2 "b"; Demo.event 3 "c"]
              initial_world) as (_ & _ & Hresp).
  - vm_compute. reflexivity.
  - refine (bool_decide_unpack _ _). vm_compute. exact I.
  - vm_compute. reflexivity.
  - rewrite Hresp. vm_compute. reflexivity.
Defined.

(** X11: with a limit that is not negative the response is bounded.  For
    an accepted body with integer limit [n >= 0], a store that applies
    [LIMIT n] to rows JSON can carry, and a SUCCESS entry of such values
    without a [data] field, the response carries at most [n] rows, and
    [n] is at most 1000. *)
Theorem nonnegative_limit_bounds_response pyd config responses execute
    (body : gmap string json) (params : RequestParams) (fields : pydict)
    (n : Z) (rows : list Row) (w : world) :
  RequestParams_validate pyd config body = inr params ->
  limit params = Some n ->
  0 <= n ->
  execute (select_query params) = inr (sql_limit n rows) ->
  Forall (fun row => renderable (PyDict row)) rows ->
  responses !! "SUCCESS" = Some fields ->
  NoDup ("data" :: fields.*1) ->
  renderable (PyDict fields) ->
  exists xs,
    response_rows (get_data responses execute params w).1 = Some xs
    /\ Z.of_nat (length xs) <= n
    /\ n <= 1000.
Proof.
  intros Hval Hn Hge Hq Hrows Hs Hnd Hfields.
  assert (Forall (fun row => renderable (PyDict row)) (sql_limit n rows)) as Hr.
  { unfold sql_limit. destruct (n <? 0); [done|by apply Forall_take]. }
  rewrite get_data_run, Hq, Hs. cbv zeta.
  rewrite render_ok by (by apply renderable_success_payload).
  rewrite success_payload_fresh by done.
  unfold response_rows, rows_data. simpl.
  eexists. split; [done|]. rewrite length_fmap.
  split; [by apply sql_limit_bound|].
  by apply (validated_limit_le pyd config body params).
Qed.

Lemma nonnegative_limit_bounds_response_witness :
  exists xs,
    response_rows
      (get_data Demo.responses (sqlite_execute Demo.db)
         {| source_table := "events"; start_index := 0; end_index := 10;
            limit := Some 2; start_date := None; end_date := None |}
         initial_world).1 = Some xs
    /\ Z.of_nat (length xs) <= 2 /\ 2 <= 1000.
Proof.
  apply (nonnegative_limit_bounds_response Demo.pyd Demo.config Demo.responses
           (sqlite_execute Demo.db) (<["limit" := JInt 2]> Demo.indices)
           {| source_table := "events"; start_index := 0; end_index := 10;
              limit := Some 2; start_date := None; end_date := None |}
           [("message", PyStr "success"); ("code", PyInt 0)] 2
           [Demo.event 1 "a"; Demo.event 2 "b"; Demo.event 3 "c"] initial_world).
  - vm_compute. reflexivity.
  - reflexivity.
  - lia.
  - vm_compute. reflexivity.
  - repeat constructor.
  - vm_compute. reflexivity.
  - refine (bool_decide_unpack _ _). vm_compute. exact I.
  - vm_compute. reflexivity.
Defined.

(** ** What a running service sends and logs *)

(** One request either leaves the statements and the log as they were, or
    it is an authorized, accepted request whose statement is appended and
    whose log records are below ERROR. *)
Lemma post_get_data_step pyd config responses execute req w :
  let w' := (post_get_data pyd config responses execute req w).2 in
  (executed w' = executed w /\ log w' = log w)
  \/ (exists p extra,
        authorized config (credentials req) = true
        /\ RequestParams_validate pyd config (body req) = inr p
        /\ executed w' = executed w ++ [select_query p]
        /\ log w' = log w ++ extra
        /\ Forall (fun r => levelname r <> ERROR) extra).
Proof.
  cbv zeta.
  destruct (reaches_limiter pyd config req) eqn:Hreach.
  - destruct (reaches_limiter_true _ _ _ Hreach) as [Hauth [p Hval]].
    rewrite (post_get_data_validated _ _ _ _ _ p) by done. unfold bind.
    destruct (limiter_check config (client_host req) (arrival req) w)
      as [[[]|e] w1] eqn:Hlim;
      apply limiter_check_frame in Hlim as [Hlog Hexec].
    + right. exists p.
      pose proof (get_data_executed responses execute p w1) as He.
      pose proof (get_data_log responses execute p w1) as Hl.
      eexists. split_and!; [done|done|by rewrite He, Hexec| |].
      * rewrite Hl, Hlog. reflexivity.
      * apply Forall_cons. split; [done|].
        destruct (execute (select_query p)) as [|[|??]];
          repeat constructor; done.
    + left. by simpl.
  - destruct (reaches_limiter_false pyd config responses execute req w Hreach)
      as [e ->]. by left.
Qed.

(** X12: over any run of requests from a fresh process, every statement
    the store has been handed is the [SELECT] of some request of the run
    that had the admin credentials and an accepted body; nothing else is
    ever sent, and no request sends more than one statement. *)
Theorem store_sees_only_validated_selects pyd config responses execute
    (hist : list Request) (q : string) :
  q ∈ executed (serve pyd config responses execute hist initial_world) ->
  (exists req p,
      req ∈ hist
      /\ authorized config (credentials req) = true
      /\ RequestParams_validate pyd config (body req) = inr p
      /\ q = "SELECT * FROM " +:+ source_table p +:+ " LIMIT "
               +:+ format_optional_int (limit p))
  /\ (length (executed (serve pyd config responses execute hist initial_world))
      <= length hist)%nat.
Proof.
  revert q. induction hist as [|req hist IH] using rev_ind; intros q.
  - simpl. by intros H%elem_of_nil.
  - rewrite serve_snoc.
    set (w := serve pyd config responses execute hist initial_world) in *.
    assert (length (executed w) <= length hist)%nat as Hlen.
    { destruct (executed w) as [|q0 qs] eqn:Hw; [simpl; lia|].
      apply (IH q0). by left. }
    destruct (post_get_data_step pyd config responses execute req w)
      as [[He _]|(p & extra & Hauth & Hval & He & _)]; rewrite He.
    + intros Hq. destruct (IH q Hq) as [(r & p & Hr & H) _]. split.
      * exists r, p. split; [|done]. apply elem_of_app. by left.
      * rewrite length_app. simpl. lia.
    + intros Hq. split; [|rewrite !length_app; simpl; lia].
      apply elem_of_app in Hq as [Hq|Hq].
      * destruct (IH q Hq) as [(r & p' & Hr & H) _].
        exists r, p'. split; [|done]. apply elem_of_app. by left.
      * apply list_elem_of_singleton in Hq as ->. exists req, p.
        split_and!; [|done|done|done]. apply elem_of_app. right. by left.
Qed.

Lemma store_sees_only_validated_selects_witness :
  exists req p,
    req ∈ [Demo.request (<["limit" := JInt 2000]> Demo.indices) 0;
           Demo.request Demo.indices 5]
    /\ authorized Demo.config (credentials req) = true
    /\ RequestParams_validate Demo.pyd Demo.config (body req) = inr p
    /\ "SELECT * FROM events LIMIT 5"
       = "SELECT * FROM " +:+ source_table p +:+ " LIMIT "
           +:+ format_optional_int (limit p).
Proof.
  apply (store_sees_only_validated_selects Demo.pyd Demo.config Demo.responses
           (sqlite_execute Demo.db)
           [Demo.request (<["limit" := JInt 2000]> Demo.indices) 0;
            Demo.request Demo.indices 5]
           "SELECT * FROM events LIMIT 5").
  vm_compute. left.
Defined.

(** X13: over any run of requests from a fresh process the service never
    logs through [logger.exception]: every record in the log is the INFO
    record or the warning of the handler. *)
Theorem serve_log_records pyd config responses execute
    (hist : list Request) (r : log_record) :
  r ∈ log (serve pyd config responses execute hist initial_world) ->
  r = LogRecord INFO "fetching records from the database..."
  \/ r = LogRecord WARNING "no records returned".
Proof.
  revert r. induction hist as [|req hist IH] using rev_ind; intros r.
  - simpl. by intros H%elem_of_nil.
  - rewrite serve_snoc.
    set (w := serve pyd config responses execute hist initial_world) in *.
    destruct (reaches_limiter pyd config req) eqn:Hreach.
    + destruct (reaches_limiter_true _ _ _ Hreach) as [Hauth [p Hval]].
      rewrite (post_get_data_validated _ _ _ _ _ p) by done. unfold bind.
      destruct (limiter_check config (client_host req) (arrival req) w)
        as [[[]|e] w1] eqn:Hlim;
        apply limiter_check_frame in Hlim as [Hlog Hexec].
      * rewrite get_data_log, Hlog. intros Hr.
        apply elem_of_app in Hr as [Hr|Hr]; [by apply IH|].
        apply elem_of_cons in Hr as [->|Hr]; [by left|].
        destruct (execute (select_query p)) as [|[|??]];
          try (by apply elem_of_nil in Hr).
        apply list_elem_of_singleton in Hr as ->. by right.
      * simpl. rewrite Hlog. apply IH.
    + destruct (reaches_limiter_false pyd config responses execute req w Hreach)
        as [e ->]. apply IH.
Qed.

Lemma serve_log_records_witness :
  LogRecord WARNING "no records returned"
    = LogRecord INFO "fetching records from the database..."
  \/ LogRecord WARNING "no records returned"
    = LogRecord WARNING "no records returned".
Proof.
  apply (serve_log_records Demo.pyd Demo.config Demo.responses
           (sqlite_execute Demo.db)
           [Demo.request (<["source_table" := JStr "empty"]> Demo.indices) 0]).
  vm_compute. right. left.
Defined.
